(** * ascii_gen: rendering a decoded image as ASCII art

    A shallow embedding of [.gemini_ascii_tool/ascii_gen.py] and the
    properties of its pipeline
    fetch -> normalize color -> resize -> grayscale -> threshold -> map -> join.

    Python integers are [Z], Python floats are IEEE-754 binary64 values
    (Rocq's primitive [float]), strings are [string], exceptions are values of
    [exn] carried by the [result] type.  The imaging library (Pillow) and the
    HTTP client are not part of the program: they appear as an interface whose
    laws are the documented contracts the program relies on. *)

From Stdlib Require Import ZArith List String Ascii Bool Lia.
From Stdlib Require Import Floats.
From Stdlib Require Uint63.
Import ListNotations.

Local Open Scope Z_scope.

(** ** Exceptions and fallible computations *)

Inductive exn : Type :=
| ZeroDivisionError
| OverflowError
| ValueError
| TypeError
| IndexError
| OSError.

Inductive result (A : Type) : Type :=
| Ok (a : A)
| Raise (e : exn).

Arguments Ok {A} a.
Arguments Raise {A} e.

Definition bind {A B : Type} (m : result A) (k : A -> result B) : result B :=
  match m with
  | Ok a => k a
  | Raise e => Raise e
  end.

Notation "x <- m ;; k" := (bind m (fun x => k))
  (at level 61, m at next level, right associativity).

Fixpoint mapM {A B : Type} (f : A -> result B) (l : list A) : result (list B) :=
  match l with
  | [] => Ok []
  | a :: l' => b <- f a ;; bs <- mapM f l' ;; Ok (b :: bs)
  end.

(** ** Python arithmetic *)

Module Py.

(** [float(n)] for an integer [n]: the nearest binary64 value, ties to even;
    an integer too large for the format raises. *)
Definition float_of_int (n : Z) : result float :=
  let sf := binary_normalize prec emax n 0 false in
  match sf with
  | S754_infinity _ => Raise OverflowError
  | _ => Ok (SF2Prim sf)
  end.

(** [int(x)] for a float [x]: truncation toward zero; infinities and NaN
    raise. *)
Definition int_of_float (x : float) : result Z :=
  match Prim2SF x with
  | S754_nan => Raise ValueError
  | S754_infinity _ => Raise OverflowError
  | S754_zero _ => Ok 0
  | S754_finite s m e =>
      let a := if 0 <=? e then Z.pos m * 2 ^ e else Z.pos m / 2 ^ (- e) in
      Ok (if s then - a else a)
  end.

(** [x / y] on floats: a zero divisor raises, everything else is the IEEE
    quotient. *)
Definition float_div (x y : float) : result float :=
  if PrimFloat.eqb y 0%float then Raise ZeroDivisionError
  else Ok (PrimFloat.div x y).

(** [a / b] on integers (true division).  The quotient of the two converted
    operands, which is the correctly rounded quotient CPython returns
    whenever both operands are exactly representable (magnitude at most
    2^53); pixel values and image dimensions are far below that. *)
Definition int_truediv (a b : Z) : result float :=
  if b =? 0 then Raise ZeroDivisionError
  else
    x <- float_of_int a ;;
    y <- float_of_int b ;;
    Ok (PrimFloat.div x y).

(** [n * x] for an integer [n] and a float [x]. *)
Definition int_mul_float (n : Z) (x : float) : result float :=
  y <- float_of_int n ;;
  Ok (PrimFloat.mul y x).

(** [x * n] and [x / n] for a float [x] and an integer [n]. *)
Definition float_mul_int (x : float) (n : Z) : result float :=
  y <- float_of_int n ;;
  Ok (PrimFloat.mul x y).

Definition float_div_int (x : float) (n : Z) : result float :=
  if n =? 0 then Raise ZeroDivisionError
  else
    y <- float_of_int n ;;
    Ok (PrimFloat.div x y).

(** [s[i]] on a string: negative indices count from the end, an index out
    of range raises. *)
Definition str_index (s : string) (i : Z) : result ascii :=
  let n := Z.of_nat (String.length s) in
  let j := if i <? 0 then i + n else i in
  if (0 <=? j) && (j <? n) then
    match String.get (Z.to_nat j) s with
    | Some c => Ok c
    | None => Raise IndexError
    end
  else Raise IndexError.

(** [s[i:j]]: a negative bound counts from the end, both bounds are
    clipped to the string, and an empty interval gives the empty string. *)
Definition slice_bound (n k : Z) : Z :=
  if k <? 0 then Z.max (k + n) 0 else Z.min k n.

Definition str_slice (s : string) (i j : Z) : string :=
  let n := Z.of_nat (String.length s) in
  let a := slice_bound n i in
  let b := slice_bound n j in
  String.substring (Z.to_nat a) (Z.to_nat (b - a)) s.

(** [range(0, stop, step)] as a list; a zero step raises, a negative step
    from 0 towards a non-negative [stop] is empty. *)
Fixpoint range_from (fuel : nat) (start stop step : Z) : list Z :=
  match fuel with
  | O => []
  | S fuel' =>
      if start <? stop then start :: range_from fuel' (start + step) stop step
      else []
  end.

Definition range0 (stop step : Z) : result (list Z) :=
  if step =? 0 then Raise ValueError
  else if step <? 0 then Ok []
  else Ok (range_from (Z.to_nat stop) 0 stop step).

End Py.

(** ** Images, as the imaging library presents them *)

(** An image's mode is a string, as in the library: ["L"] (grayscale),
    ["LA"] (grayscale with alpha), ["P"] (palette), ["RGB"], ["RGBA"], and
    the modes the program has no case for (["1"], ["I"], ["I;16"], ["F"],
    ["CMYK"], ["YCbCr"], ...). *)
Definition mode : Type := string.

Definition L : mode := "L"%string.
Definition LA : mode := "LA"%string.
Definition P : mode := "P"%string.
Definition RGB : mode := "RGB"%string.
Definition RGBA : mode := "RGBA"%string.

(** [a == b] on modes. *)
Definition mode_eqb (a b : mode) : bool := String.eqb a b.

(** [m in modes]. *)
Definition mode_in (m : mode) (modes : list mode) : bool :=
  existsb (mode_eqb m) modes.

(** A value of [getdata]: an integer for a single-band image of integers, a
    float for a mode ["F"] image, a tuple of band values otherwise. *)
Inductive pixel : Type :=
| PInt (v : Z)
| PTuple (bands : list Z)
| PFloat (x : float).

(** [im_size] is (width, height); [im_data] is the pixel grid flattened
    row-major; [im_palette] is the colour table of a palette image. *)
Record Image : Type := mkImage {
  im_mode : mode;
  im_size : Z * Z;
  im_data : list pixel;
  im_palette : list (list Z)
}.

Definition band_count (m : mode) : nat :=
  if mode_in m ["LA"; "PA"; "La"]%string then 2
  else if mode_in m ["RGB"; "YCbCr"; "LAB"; "HSV"]%string then 3
  else if mode_in m ["RGBA"; "RGBX"; "RGBa"; "CMYK"]%string then 4
  else 1.

(** The modes with 8-bit bands that the image loader is specified to
    return. *)
Definition eight_bit (m : mode) : bool := mode_in m [L; LA; P; RGB; RGBA].

Definition byte_ok (v : Z) : bool := (0 <=? v) && (v <=? 255).

Definition pixel_ok (m : mode) (p : pixel) : bool :=
  eight_bit m
  && match p with
     | PInt v => Nat.eqb (band_count m) 1 && byte_ok v
     | PTuple bs =>
         negb (Nat.eqb (band_count m) 1)
         && Nat.eqb (List.length bs) (band_count m)
         && forallb byte_ok bs
     | PFloat _ => false
     end.

(** A decoded image of mode L, LA, P, RGB or RGBA: positive dimensions, one
    pixel per cell, every band an 8-bit value. *)
Definition well_formed (img : Image) : bool :=
  let '(w, h) := im_size img in
  (0 <? w) && (0 <? h)
  && (Z.of_nat (List.length (im_data img)) =? w * h)
  && forallb (pixel_ok (im_mode img)) (im_data img).

Definition white : pixel := PTuple [255; 255; 255].

(** [Image.new(mode, size, color)]. *)
Definition Image_new (m : mode) (size : Z * Z) (color : pixel) : Image :=
  mkImage m size (repeat color (Z.to_nat (fst size * snd size))) [].

(** [image.getdata()]. *)
Definition getdata (img : Image) : list pixel := im_data img.

Definition band_of (k : nat) (p : pixel) : pixel :=
  match p with
  | PTuple bs => PInt (nth k bs 0)
  | _ => p
  end.

(** [image.split()]: a single-band image gives a copy of itself, any other
    one grayscale image per band. *)
Definition split (img : Image) : list Image :=
  if Nat.eqb (band_count (im_mode img)) 1 then [img]
  else
    map (fun k => mkImage L (im_size img) (map (band_of k) (im_data img)) [])
        (seq 0 (band_count (im_mode img))).

(** [t[k]] on the tuple returned by [split]. *)
Definition tuple_index {A : Type} (t : list A) (k : nat) : result A :=
  match nth_error t k with
  | Some a => Ok a
  | None => Raise IndexError
  end.

(** [image.point(f)] on an image with 8-bit bands: every band value goes
    through the lookup table of [f].  The program calls it on the grayscale
    image only. *)
Definition point (img : Image) (f : Z -> Z) : Image :=
  mkImage (im_mode img) (im_size img)
    (map (fun p => match p with
                   | PInt v => PInt (f v)
                   | PTuple bs => PTuple (map f bs)
                   | PFloat x => PFloat x
                   end) (im_data img))
    (im_palette img).

(** The colour part of a pixel that is pasted into an RGB image. *)
Definition rgb_of (p : pixel) : pixel :=
  match p with
  | PInt v => PTuple [v; v; v]
  | PTuple [v; _] => PTuple [v; v; v]
  | PTuple (r :: g :: b :: _) => PTuple [r; g; b]
  | PTuple bs => PTuple bs
  | PFloat x => PFloat x
  end.

(** The values of a C [int], the type in which the library's resize takes
    the two dimensions. *)
Definition c_int (v : Z) : bool := (- 2 ^ 31 <=? v) && (v <? 2 ^ 31).

(** The operations of the imaging library whose pixel arithmetic is not part
    of the program, with the contracts the program relies on. *)
Class Imaging : Type := {
  (** [image.convert(mode)] *)
  convert : Image -> mode -> Image;
  (** [image.resize(size, resample=Image.LANCZOS)] *)
  resize : Image -> Z * Z -> result Image;
  (** [background.paste(img, mask=m)], returning the updated background *)
  paste : Image -> Image -> Image -> Image;

  convert_mode : forall img m,
      eight_bit m = true -> im_mode (convert img m) = m;
  convert_size : forall img m,
      eight_bit m = true -> im_size (convert img m) = im_size img;
  convert_wf : forall img m,
      eight_bit m = true ->
      well_formed img = true -> well_formed (convert img m) = true;
  (** converting to the mode an image already has copies it *)
  convert_same : forall img, convert img (im_mode img) = img;
  (** the luma transform leaves a grey RGB pixel at its value *)
  convert_grey : forall img i v,
      im_mode img = RGB ->
      nth_error (im_data img) i = Some (PTuple [v; v; v]) ->
      byte_ok v = true ->
      nth_error (im_data (convert img L)) i = Some (PInt v);

  (** a requested size below 1x1 is rejected: with [ValueError] when both
      dimensions fit a C [int], with [OverflowError] when one does not *)
  resize_nonpos : forall img w h,
      well_formed img = true ->
      w < 1 \/ h < 1 ->
      resize img (w, h)
      = Raise (if c_int w && c_int h then ValueError else OverflowError);
  resize_size : forall img size out,
      resize img size = Ok out -> im_size out = size;
  resize_mode : forall img size out,
      resize img size = Ok out -> im_mode out = im_mode img;
  resize_wf : forall img size out,
      well_formed img = true -> resize img size = Ok out ->
      well_formed out = true;
  (** resizing to the size an image already has copies it *)
  resize_same : forall img,
      well_formed img = true -> resize img (im_size img) = Ok img;

  paste_mode : forall bg src mask, im_mode (paste bg src mask) = im_mode bg;
  paste_size : forall bg src mask, im_size (paste bg src mask) = im_size bg;
  paste_palette : forall bg src mask,
      im_palette (paste bg src mask) = im_palette bg;
  paste_length : forall bg src mask,
      List.length (im_data (paste bg src mask)) = List.length (im_data bg);
  paste_wf : forall bg src mask,
      im_mode bg = RGB ->
      well_formed bg = true -> well_formed src = true ->
      well_formed (paste bg src mask) = true;
  (** where the mask is 0 the background stays *)
  paste_transparent : forall bg src mask i b,
      nth_error (im_data bg) i = Some b ->
      nth_error (im_data mask) i = Some (PInt 0) ->
      nth_error (im_data (paste bg src mask)) i = Some b;
  (** where the mask is 255 the pasted colour replaces the background *)
  paste_opaque : forall bg src mask i b s,
      im_mode bg = RGB ->
      nth_error (im_data bg) i = Some b ->
      nth_error (im_data src) i = Some s ->
      nth_error (im_data mask) i = Some (PInt 255) ->
      nth_error (im_data (paste bg src mask)) i = Some (rgb_of s)
}.

(** The HTTP client and the image decoder: [requests.get] with the
    [raise_for_status] check, then [Image.open] on the body.  A failure is
    the message of the exception raised. *)
Record response : Type := mkResponse {
  status_code : Z;
  content : list Byte.byte
}.

(** What [Image.open] returns.  It only identifies the file from its header;
    the pixel data are read when an operation first needs them.  So an opened
    file either decodes to an image, or has a mode and a size but raises
    when its data are loaded (a truncated or corrupt body). *)
Inductive opened : Type :=
| Decodable (img : Image)
| Undecodable (m : mode) (size : Z * Z) (e : exn).

Class Fetcher : Type := {
  (** [requests.get(url, headers=headers)] *)
  requests_get : string -> list (string * string) -> string + response;
  (** the message of the [HTTPError] raised for this response *)
  http_error_message : response -> string;
  (** [Image.open(BytesIO(content))] *)
  Image_open : list Byte.byte -> string + opened
}.

(** [response.raise_for_status()]: statuses 400 to 599 raise. *)
Definition raise_for_status `{Fetcher} (r : response) : string + unit :=
  if (400 <=? status_code r) && (status_code r <? 600)
  then inl (http_error_message r)
  else inr tt.

(** ** The program *)

Definition ASCII_CHARS : string := "@%#*+=-:. ".

Definition newline : string := String (ascii_of_nat 10) EmptyString.

Section Program.

Context {lib : Imaging}.

(** Lines 11-14 of [resize_image]: the height that goes with [new_width]. *)
Definition new_height_for (size : Z * Z) (new_width : Z) (ratio_val : float)
  : result Z :=
  let '(width, height) := size in
  q <- Py.int_truediv height width ;;
  ratio <- Py.float_div q ratio_val ;;
  scaled <- Py.int_mul_float new_width ratio ;;
  new_height <- Py.int_of_float scaled ;;
  Ok (if new_height =? 0 then 1 else new_height).

Definition resize_image (image : Image) (new_width : Z) (ratio_val : float)
  : result Image :=
  new_height <- new_height_for (im_size image) new_width ratio_val ;;
  resize image (new_width, new_height).

Definition grayify (image : Image) : Image := convert image L.

(** The index expression [int(pixel * (ascii_str_len - 1) / 255)]. *)
Definition ramp_index (pixel : Z) : result Z :=
  let ascii_str_len := Z.of_nat (String.length ASCII_CHARS) in
  q <- Py.int_truediv (pixel * (ascii_str_len - 1)) 255 ;;
  Py.int_of_float q.

(** The same expression on a float pixel. *)
Definition ramp_index_float (pixel : float) : result Z :=
  let ascii_str_len := Z.of_nat (String.length ASCII_CHARS) in
  scaled <- Py.float_mul_int pixel (ascii_str_len - 1) ;;
  q <- Py.float_div_int scaled 255 ;;
  Py.int_of_float q.

(** The character of one value of [getdata]; a tuple cannot be divided. *)
Definition ascii_of_pixel (px : pixel) : result ascii :=
  match px with
  | PInt p => i <- ramp_index p ;; Py.str_index ASCII_CHARS i
  | PTuple _ => Raise TypeError
  | PFloat x => i <- ramp_index_float x ;; Py.str_index ASCII_CHARS i
  end.

Definition pixels_to_ascii (image : Image) : result string :=
  let pixels := getdata image in
  characters <- mapM ascii_of_pixel pixels ;;
  Ok (string_of_list_ascii characters).

(** Lines 37-47 of [generate_ascii]: palette and alpha are removed. *)
Definition normalize_color (img : Image) : result Image :=
  let img := if mode_eqb (im_mode img) P then convert img RGBA else img in
  if mode_eqb (im_mode img) RGBA || mode_eqb (im_mode img) LA then
    let background := Image_new RGB (im_size img) white in
    mask <- (if mode_eqb (im_mode img) RGBA
             then tuple_index (split img) 3
             else tuple_index (split img) 1) ;;
    Ok (paste background img mask)
  else Ok img.

(** Lines 56-57 of [generate_ascii]: the rows of the picture. *)
Definition join_rows (new_image_data : string) (width : Z) : result string :=
  let pixel_count := Z.of_nat (String.length new_image_data) in
  indexes <- Py.range0 pixel_count width ;;
  Ok (String.concat newline
        (map (fun index => Py.str_slice new_image_data index (index + width))
             indexes)).

(** The function given to [point]: [lambda p: 255 if p > threshold else 0]. *)
Definition binarize (threshold p : Z) : Z :=
  if threshold <? p then 255 else 0.

(** Lines 37-58 of [generate_ascii]: everything after the image is loaded. *)
Definition render (img : Image) (width : Z) (ratio : float)
           (threshold : option Z) : result string :=
  img <- normalize_color img ;;
  resized <- resize_image img width ratio ;;
  let img := grayify resized in
  let img := match threshold with
             | Some t => point img (binarize t)
             | None => img
             end in
  new_image_data <- pixels_to_ascii img ;;
  join_rows new_image_data width.

Context {net : Fetcher}.

(** Lines 29-32: the body of the [try]. *)
Definition load_image (url : string) : string + opened :=
  let headers := [("User-Agent", "Mozilla/5.0")]%string in
  match requests_get url headers with
  | inl e => inl e
  | inr response =>
      match raise_for_status response with
      | inl e => inl e
      | inr _ => Image_open (content response)
      end
  end.

(** Standard output is the list of lines printed so far. *)
Definition stdout : Type := list string.

Definition print (s : string) (out : stdout) : stdout := out ++ [s].

(** Lines 37-58 on an opened file.  The data of a file that does not decode
    are first needed by [convert] (palette), by [split] (alpha band) or, for
    the other modes, by [resize] after the height arithmetic; the exception
    is raised there. *)
Definition render_opened (file : opened) (width : Z) (ratio : float)
           (threshold : option Z) : result string :=
  match file with
  | Decodable img => render img width ratio threshold
  | Undecodable m size e =>
      if mode_eqb m P || mode_eqb m RGBA || mode_eqb m LA then Raise e
      else (_ <- new_height_for size width ratio ;; Raise e)
  end.

(** [generate_ascii]: the value returned ([None] after a failed load), or
    the exception that escapes, together with standard output. *)
Definition generate_ascii (url : string) (width : Z) (ratio : float)
           (threshold : option Z) (out : stdout)
  : result (option string) * stdout :=
  match load_image url with
  | inl e => (Ok None, print ("Error loading image: " ++ e) out)
  | inr file =>
      match render_opened file width ratio threshold with
      | Ok ascii_image => (Ok (Some ascii_image), out)
      | Raise e => (Raise e, out)
      end
  end.

Record Namespace : Type := mkArgs {
  arg_url : string;
  arg_width : Z;
  arg_ratio : float;
  arg_threshold : option Z
}.

(** The script body after argument parsing. *)
Definition main (args : Namespace) (out : stdout) : result unit * stdout :=
  match generate_ascii (arg_url args) (arg_width args) (arg_ratio args)
                       (arg_threshold args) out with
  | (Ok (Some result), out') =>
      if (0 <? String.length result)%nat then (Ok tt, print result out')
      else (Ok tt, out')
  | (Ok None, out') => (Ok tt, out')
  | (Raise e, out') => (Raise e, out')
  end.

End Program.

(** ** A reference imaging library

    An executable instance of [Imaging]: the luma transform and the 8-bit
    blend are the fixed-point formulas of the imaging library, resampling is
    nearest-neighbour.  It shows that the contracts above can be met together
    and lets the pipeline run on concrete images. *)

Module Reference.

Definition clip (v : Z) : Z := Z.max 0 (Z.min 255 v).

Definition luma (r g b : Z) : Z :=
  (r * 19595 + g * 38470 + b * 7471 + 32768) / 65536.

Definition div255 (a : Z) : Z :=
  let tmp := a + 128 in (tmp / 256 + tmp) / 256.

Definition blend8 (m bg src : Z) : Z := div255 (bg * (255 - m) + src * m).

(** Every pixel as four clipped bands (red, green, blue, alpha). *)
Definition to_rgba (m : mode) (palette : list (list Z)) (p : pixel)
  : Z * Z * Z * Z :=
  match p with
  | PInt v =>
      if mode_eqb m P then
        match nth (Z.to_nat v) palette [] with
        | [r; g; b] => (clip r, clip g, clip b, 255)
        | [r; g; b; a] => (clip r, clip g, clip b, clip a)
        | _ => (0, 0, 0, 255)
        end
      else (clip v, clip v, clip v, 255)
  | PTuple [v; a] => (clip v, clip v, clip v, clip a)
  | PTuple [r; g; b] => (clip r, clip g, clip b, 255)
  | PTuple [r; g; b; a] => (clip r, clip g, clip b, clip a)
  | _ => (0, 0, 0, 255)
  end.

(** Quantization to a palette is not modelled: every colour gets index 0. *)
Definition of_rgba (m : mode) (c : Z * Z * Z * Z) : pixel :=
  let '(r, g, b, a) := c in
  if mode_eqb m LA then PTuple [luma r g b; a]
  else if mode_eqb m P then PInt 0
  else if mode_eqb m RGB then PTuple [r; g; b]
  else if mode_eqb m RGBA then PTuple [r; g; b; a]
  else PInt (luma r g b).

Definition ref_convert (img : Image) (m : mode) : Image :=
  if mode_eqb (im_mode img) m then img
  else mkImage m (im_size img)
         (map (fun p => of_rgba m (to_rgba (im_mode img) (im_palette img) p))
              (im_data img))
         [].

Definition default_pixel (m : mode) : pixel :=
  if Nat.eqb (band_count m) 1 then PInt 0
  else PTuple (repeat 0 (band_count m)).

(** The source pixel nearest to cell [k] of a [w] x [h] grid. *)
Definition nearest (img : Image) (w h : Z) (k : nat) : pixel :=
  let '(w0, h0) := im_size img in
  let x := Z.of_nat k mod w in
  let y := Z.of_nat k / w in
  let sx := x * w0 / w in
  let sy := y * h0 / h in
  nth (Z.to_nat (sy * w0 + sx)) (im_data img) (default_pixel (im_mode img)).

Definition size_eqb (a b : Z * Z) : bool :=
  (fst a =? fst b) && (snd a =? snd b).

Definition ref_resize (img : Image) (size : Z * Z) : result Image :=
  let '(w, h) := size in
  if size_eqb (im_size img) size then Ok img
  else if negb (c_int w && c_int h) then Raise OverflowError
  else if (w <? 1) || (h <? 1) then Raise ValueError
  else Ok (mkImage (im_mode img) (w, h)
             (map (nearest img w h) (seq 0 (Z.to_nat (w * h))))
             (im_palette img)).

Fixpoint blend_bands (m : Z) (bb ss : list Z) : list Z :=
  match bb with
  | [] => []
  | x :: bb' =>
      match ss with
      | y :: ss' => clip (blend8 m x y) :: blend_bands m bb' ss'
      | [] => x :: blend_bands m bb' []
      end
  end.

Definition blend_pixel (m : Z) (b s : pixel) : pixel :=
  if m =? 0 then b
  else if m =? 255 then rgb_of s
  else match b, rgb_of s with
       | PTuple bb, PTuple ss => PTuple (blend_bands m bb ss)
       | _, _ => b
       end.

Fixpoint paste_data (bg src mask : list pixel) : list pixel :=
  match bg with
  | [] => []
  | b :: bg' =>
      match src, mask with
      | s :: _, PInt m :: _ => blend_pixel m b s
      | _, _ => b
      end :: paste_data bg' (tl src) (tl mask)
  end.

Definition ref_paste (bg src mask : Image) : Image :=
  mkImage (im_mode bg) (im_size bg)
    (paste_data (im_data bg) (im_data src) (im_data mask))
    (im_palette bg).

End Reference.


(** ** The specification's vocabulary *)

(** [round(x)] on a float: the nearest integer, ties to the even one. *)
Definition round_float (x : float) : result Z :=
  match Prim2SF x with
  | S754_nan => Raise ValueError
  | S754_infinity _ => Raise OverflowError
  | S754_zero _ => Ok 0
  | S754_finite s m e =>
      let a :=
        if 0 <=? e then Z.pos m * 2 ^ e
        else
          let d := 2 ^ (- e) in
          let q := Z.pos m / d in
          let r := Z.pos m mod d in
          if 2 * r <? d then q
          else if d <? 2 * r then q + 1
          else if Z.even q then q else q + 1 in
      Ok (if s then - a else a)
  end.

(** The height as the specification words it:
    [round(target_width * (original_height / original_width) / aspect_ratio)],
    at least 1. *)
Definition spec_new_height (size : Z * Z) (target_width : Z)
           (aspect_ratio : float) : result Z :=
  let '(original_width, original_height) := size in
  q <- Py.int_truediv original_height original_width ;;
  scaled <- Py.int_mul_float target_width q ;;
  x <- Py.float_div scaled aspect_ratio ;;
  n <- round_float x ;;
  Ok (Z.max 1 n).

(** The height before the zero check: the fractional part of
    [new_width * (height / width / ratio_val)] is dropped. *)
Definition truncated_height (size : Z * Z) (new_width : Z) (ratio_val : float)
  : result Z :=
  let '(width, height) := size in
  q <- Py.int_truediv height width ;;
  ratio <- Py.float_div q ratio_val ;;
  scaled <- Py.int_mul_float new_width ratio ;;
  Py.int_of_float scaled.

(** The exact value of a finite float, as a fraction [(num, den)] whose
    denominator is a power of two. *)
Definition float_fraction (x : float) : option (Z * Z) :=
  match Prim2SF x with
  | S754_zero _ => Some (0, 1)
  | S754_finite s m e =>
      Some ((if s then Z.neg m else Z.pos m) * 2 ^ Z.max 0 e,
            2 ^ Z.max 0 (- e))
  | S754_nan | S754_infinity _ => None
  end.

(** The ramp character of a luminance, with the index as an integer
    quotient: [floor(p * (rampLength - 1) / 255)]. *)
Definition ramp_char (p : Z) : ascii :=
  let rampLength := Z.of_nat (String.length ASCII_CHARS) in
  nth (Z.to_nat (p * (rampLength - 1) / 255))
      (list_ascii_of_string ASCII_CHARS) " "%char.

Definition luminance (px : pixel) : Z :=
  match px with
  | PInt v => v
  | _ => 0
  end.

(** A sequence cut into rows of [w] cells; only the last row can be short. *)
Fixpoint chunks {A : Type} (fuel w : nat) (l : list A) : list (list A) :=
  match fuel with
  | O => []
  | S fuel' =>
      match l with
      | [] => []
      | _ :: _ => firstn w l :: chunks fuel' w (skipn w l)
      end
  end.

Definition rows_of (w : Z) (s : string) : list string :=
  map string_of_list_ascii
      (chunks (String.length s) (Z.to_nat w) (list_ascii_of_string s)).

(** The lines of a text: the pieces between the occurrences of the
    character [c], as [str.split] gives them. *)
Fixpoint split_on (c : ascii) (s : string) : list string :=
  match s with
  | EmptyString => [EmptyString]
  | String a s' =>
      if Ascii.eqb a c then EmptyString :: split_on c s'
      else match split_on c s' with
           | [] => [String a EmptyString]
           | line :: rest => String a line :: rest
           end
  end.

(** A grayscale image: one 8-bit value per cell. *)
Definition grayscale (img : Image) : Prop :=
  im_mode img = L /\ well_formed img = true.

Definition space : ascii := " "%char.
Definition at_sign : ascii := "@"%char.

(** Every band of a colour is an 8-bit value. *)
Definition rgba_ok (c : Z * Z * Z * Z) : Prop :=
  let '(r, g, b, a) := c in
  byte_ok r = true /\ byte_ok g = true /\ byte_ok b = true /\ byte_ok a = true.

(** The index computed in floating point agrees with the integer quotient. *)
Definition ramp_index_is_floor (p : Z) : bool :=
  match ramp_index p with
  | Ok i => i =? p * 9 / 255
  | Raise _ => false
  end.

Definition ramp_member (c : ascii) : Prop :=
  In c (list_ascii_of_string ASCII_CHARS).

(** The sign bit of a float is clear, or the float is NaN. *)
Definition sf_pos (x : spec_float) : Prop :=
  match x with
  | S754_nan => True
  | S754_zero s | S754_infinity s | S754_finite s _ _ => s = false
  end.

(** The sign bit of a float is [b], or the float is NaN. *)
Definition sf_signed (b : bool) (x : spec_float) : Prop :=
  match x with
  | S754_nan => True
  | S754_zero s | S754_infinity s | S754_finite s _ _ => s = b
  end.

(** The number of rows needed for [n] cells in rows of [w]. *)
Definition row_count (n w : Z) : Z := (n + w - 1) / w.

(** The alpha value of a pixel that has one. *)
Definition alpha_of (px : pixel) : Z :=
  match px with
  | PTuple [_; a] => a
  | PTuple [_; _; _; a] => a
  | _ => 255
  end.

(** The last band of an image as a mask. *)
Definition alpha_band (img : Image) : Image :=
  mkImage L (im_size img)
    (map (band_of (band_count (im_mode img) - 1)) (im_data img)) [].

(** The image composited over an opaque white background of its size, its
    alpha band being the blend mask. *)
Definition composite {lib : Imaging} (img : Image) : Image :=
  paste (Image_new RGB (im_size img) (PTuple [255; 255; 255])) img (alpha_band img).

(** The image flattened onto pure white by hand: a fully transparent pixel
    becomes white, an opaque pixel keeps its colour. *)
Definition flatten_white (img : Image) : Image :=
  mkImage RGB (im_size img)
    (map (fun px => if alpha_of px =? 0 then PTuple [255; 255; 255]
                    else rgb_of px)
         (im_data img))
    [].

Definition binary_alpha (img : Image) : Prop :=
  Forall (fun px => alpha_of px = 0 \/ alpha_of px = 255) (im_data img).

(** An image all of whose pixels are fully transparent, or fully opaque. *)
Definition fully_transparent (img : Image) : Prop :=
  Forall (fun px => alpha_of px = 0) (im_data img).

Definition fully_opaque (img : Image) : Prop :=
  Forall (fun px => alpha_of px = 255) (im_data img).

(** The image with its alpha band dropped. *)
Definition drop_alpha (img : Image) : Image :=
  mkImage RGB (im_size img) (map rgb_of (im_data img)) [].

(** The image that reaches the character mapping: the resized image in
    grayscale, binarized when a threshold is given. *)
Definition mapped_image {lib : Imaging} (resized : Image)
           (threshold : option Z) : Image :=
  match threshold with
  | Some t => point (grayify resized) (binarize t)
  | None => grayify resized
  end.

Section Runs.

Context {lib : Imaging} {net : Fetcher}.

(** What a run of the pipeline on a decoded image goes through. *)
Inductive stages (img : Image) (W : Z) (r : float) (threshold : option Z)
          (out : string) : Prop :=
| mkStages (normal resized : Image) (height : Z)
    (st_normalize : normalize_color img = Ok normal)
    (st_resize : resize_image normal W r = Ok resized)
    (st_width_pos : 1 <= W)
    (st_height_pos : 1 <= height)
    (st_size : im_size resized = (W, height))
    (st_resized_wf : well_formed resized = true)
    (st_gray : grayscale (mapped_image resized threshold))
    (st_gray_size : im_size (mapped_image resized threshold) = (W, height))
    (st_data :
       pixels_to_ascii (mapped_image resized threshold) =
       Ok (string_of_list_ascii
             (map (fun px => ramp_char (luminance px))
                  (getdata (mapped_image resized threshold)))))
    (st_out :
       out = String.concat newline
               (rows_of W (string_of_list_ascii
                             (map (fun px => ramp_char (luminance px))
                                  (getdata (mapped_image resized threshold)))))).

(** The ways the body of the [try] fails, with the message of the exception:
    the request itself, an error status, or a body that [Image.open] does
    not identify as an image. *)
Inductive load_failure (url : string) (e : string) : Prop :=
| connection_failure :
    requests_get url [("User-Agent", "Mozilla/5.0")]%string = inl e ->
    load_failure url e
| error_status (resp : response) :
    requests_get url [("User-Agent", "Mozilla/5.0")]%string = inr resp ->
    400 <= status_code resp < 600 ->
    e = http_error_message resp ->
    load_failure url e
| decode_failure (resp : response) :
    requests_get url [("User-Agent", "Mozilla/5.0")]%string = inr resp ->
    ~ 400 <= status_code resp < 600 ->
    Image_open (content resp) = inl e ->
    load_failure url e.

End Runs.

(** ** Sample inputs *)

Definition white2x2 : Image :=
  mkImage RGB (2, 2)
    [PTuple [255; 255; 255]; PTuple [255; 255; 255];
     PTuple [255; 255; 255]; PTuple [255; 255; 255]] [].

Definition gray3x2 : Image :=
  mkImage L (3, 2) [PInt 0; PInt 100; PInt 255; PInt 27; PInt 28; PInt 254] [].

Definition tall4x7 : Image := Image_new L (4, 7) (PInt 0).

Definition rgba2x2 : Image :=
  mkImage RGBA (2, 2)
    [PTuple [10; 20; 30; 0]; PTuple [0; 0; 0; 255];
     PTuple [200; 100; 50; 255]; PTuple [0; 0; 0; 0]] [].

(** A network where one host is unreachable, one file is missing and one
    file is not an image. *)
Definition sample_net : Fetcher := {|
  requests_get := fun url _ =>
    if String.eqb url "https://example.org/missing.png"
    then inr (mkResponse 404 [])
    else if String.eqb url "https://example.org/notes.txt"
    then inr (mkResponse 200 [Byte.x68; Byte.x69])
    else inl "Connection refused"%string;
  http_error_message := fun _ => "404 Client Error: Not Found"%string;
  Image_open := fun _ => inl "cannot identify image file"%string
|}.

(** A network where every address answers 200 with a file that has the
    header of a 2x2 RGB image and pixel data that are cut off. *)
Definition truncated_net : Fetcher := {|
  requests_get := fun _ _ => inr (mkResponse 200 [Byte.x89; Byte.x50]);
  http_error_message := fun _ => ""%string;
  Image_open := fun _ => inr (Undecodable RGB (2, 2) OSError)
|}.

(** A network where every address answers 200 with a body that decodes to
    [img]. *)
Definition serving (img : Image) : Fetcher := {|
  requests_get := fun _ _ => inr (mkResponse 200 [Byte.x89; Byte.x50]);
  http_error_message := fun _ => ""%string;
  Image_open := fun _ => inr (Decodable img)
|}.

(** Where the second row of cells shows a space, so does the first. *)
Definition lighter_or_equal (s1 s2 : string) : Prop :=
  Forall2 (fun c1 c2 => c2 = space -> c1 = space)
          (list_ascii_of_string s1) (list_ascii_of_string s2).


(** ** The reference library meets the contracts *)

Lemma byte_ok_iff (v : Z) : byte_ok v = true <-> 0 <= v <= 255.
Proof. unfold byte_ok. rewrite andb_true_iff, !Z.leb_le. tauto. Qed.

Lemma clip_ok (v : Z) : byte_ok (Reference.clip v) = true.
Proof. apply byte_ok_iff. unfold Reference.clip. lia. Qed.

Lemma clip_id (v : Z) : byte_ok v = true -> Reference.clip v = v.
Proof. rewrite byte_ok_iff. unfold Reference.clip. lia. Qed.

Lemma luma_ok (r g b : Z) :
  byte_ok r = true -> byte_ok g = true -> byte_ok b = true ->
  byte_ok (Reference.luma r g b) = true.
Proof.
  rewrite !byte_ok_iff. intros Hr Hg Hb. unfold Reference.luma. split.
  - apply Z.div_pos; lia.
  - assert ((r * 19595 + g * 38470 + b * 7471 + 32768) / 65536 < 256); [|lia].
    apply Z.div_lt_upper_bound; lia.
Qed.

Lemma luma_grey (v : Z) : Reference.luma v v v = v.
Proof.
  unfold Reference.luma. symmetry.
  apply Z.div_unique with (r := 32768); lia.
Qed.

Lemma to_rgba_ok (m : mode) (pal : list (list Z)) (p : pixel) :
  rgba_ok (Reference.to_rgba m pal p).
Proof.
  unfold Reference.to_rgba, rgba_ok.
  assert (H255 : byte_ok 255 = true) by reflexivity.
  assert (H0 : byte_ok 0 = true) by reflexivity.
  destruct p as [v | bs | x]; [destruct (mode_eqb m P)| |];
    repeat match goal with
           | |- context [match ?l with [] => _ | _ :: _ => _ end] => destruct l
           end;
    repeat split; auto using clip_ok.
Qed.

Lemma mode_eqb_eq (a b : mode) : mode_eqb a b = true <-> a = b.
Proof. apply String.eqb_eq. Qed.

Lemma mode_eqb_refl (a : mode) : mode_eqb a a = true.
Proof. apply String.eqb_refl. Qed.

Lemma mode_eqb_neq (a b : mode) : a <> b -> mode_eqb a b = false.
Proof. intros H. apply not_true_is_false. now rewrite mode_eqb_eq. Qed.

Lemma eight_bit_cases (m : mode) :
  eight_bit m = true ->
  m = L \/ m = LA \/ m = P \/ m = RGB \/ m = RGBA.
Proof.
  unfold eight_bit, mode_in. simpl.
  rewrite !orb_true_iff, !mode_eqb_eq. intuition discriminate.
Qed.

Ltac mode_cases H :=
  destruct (eight_bit_cases _ H) as [-> | [-> | [-> | [-> | ->]]]].

Lemma of_rgba_ok (m : mode) (c : Z * Z * Z * Z) :
  eight_bit m = true ->
  rgba_ok c -> pixel_ok m (Reference.of_rgba m c) = true.
Proof.
  destruct c as [[[r g] b] a]. simpl. intros Hm (Hr & Hg & Hb & Ha).
  pose proof (luma_ok r g b Hr Hg Hb) as Hl.
  mode_cases Hm; unfold pixel_ok; simpl;
    rewrite ?Hr, ?Hg, ?Hb, ?Ha, ?Hl; reflexivity.
Qed.

Lemma well_formed_iff (img : Image) :
  well_formed img = true <->
  0 < fst (im_size img) /\ 0 < snd (im_size img)
  /\ Z.of_nat (List.length (im_data img)) = fst (im_size img) * snd (im_size img)
  /\ Forall (fun p => pixel_ok (im_mode img) p = true) (im_data img).
Proof.
  unfold well_formed. destruct (im_size img) as [w h]. simpl.
  rewrite !andb_true_iff, !Z.ltb_lt, Z.eqb_eq, forallb_forall, Forall_forall.
  tauto.
Qed.

Lemma well_formed_eight_bit (img : Image) :
  well_formed img = true -> eight_bit (im_mode img) = true.
Proof.
  intros Hwf. apply well_formed_iff in Hwf.
  destruct Hwf as (Hw & Hh & Hlen & Hall).
  destruct (im_data img) as [|p l]; [simpl in Hlen; nia|].
  apply Forall_inv in Hall. unfold pixel_ok in Hall.
  now apply andb_true_iff in Hall.
Qed.

Lemma ref_convert_mode (img : Image) (m : mode) :
  eight_bit m = true -> im_mode (Reference.ref_convert img m) = m.
Proof.
  intros _. unfold Reference.ref_convert.
  destruct (mode_eqb (im_mode img) m) eqn:E; [now apply mode_eqb_eq | reflexivity].
Qed.

Lemma ref_convert_size (img : Image) (m : mode) :
  eight_bit m = true -> im_size (Reference.ref_convert img m) = im_size img.
Proof.
  intros _. unfold Reference.ref_convert. now destruct (mode_eqb (im_mode img) m).
Qed.

Lemma ref_convert_wf (img : Image) (m : mode) :
  eight_bit m = true ->
  well_formed img = true -> well_formed (Reference.ref_convert img m) = true.
Proof.
  intros Hm. unfold Reference.ref_convert.
  destruct (mode_eqb (im_mode img) m); [trivial|].
  rewrite !well_formed_iff. simpl. intros (Hw & Hh & Hlen & _).
  rewrite length_map. repeat split; trivial.
  apply Forall_map, Forall_forall. intros p _.
  apply of_rgba_ok; [exact Hm | apply to_rgba_ok].
Qed.

Lemma ref_convert_same (img : Image) :
  Reference.ref_convert img (im_mode img) = img.
Proof. unfold Reference.ref_convert. now rewrite mode_eqb_refl. Qed.

Lemma ref_convert_grey (img : Image) (i : nat) (v : Z) :
  im_mode img = RGB ->
  nth_error (im_data img) i = Some (PTuple [v; v; v]) ->
  byte_ok v = true ->
  nth_error (im_data (Reference.ref_convert img L)) i = Some (PInt v).
Proof.
  intros Hm Hi Hv. unfold Reference.ref_convert. rewrite Hm. simpl.
  rewrite nth_error_map, Hi. simpl.
  now rewrite (clip_id v Hv), luma_grey.
Qed.

Lemma default_pixel_ok (m : mode) :
  eight_bit m = true -> pixel_ok m (Reference.default_pixel m) = true.
Proof. intros Hm. mode_cases Hm; reflexivity. Qed.

Lemma nearest_ok (img : Image) (w h : Z) (k : nat) :
  eight_bit (im_mode img) = true ->
  Forall (fun p => pixel_ok (im_mode img) p = true) (im_data img) ->
  pixel_ok (im_mode img) (Reference.nearest img w h k) = true.
Proof.
  intros Hm Hall. unfold Reference.nearest. destruct (im_size img) as [w0 h0].
  set (j := Z.to_nat _).
  destruct (nth_in_or_default j (im_data img)
              (Reference.default_pixel (im_mode img))) as [Hin | Hd].
  - rewrite Forall_forall in Hall. now apply Hall.
  - rewrite Hd. now apply default_pixel_ok.
Qed.

Lemma size_eqb_eq (a b : Z * Z) : Reference.size_eqb a b = true <-> a = b.
Proof.
  destruct a, b. unfold Reference.size_eqb. simpl.
  rewrite andb_true_iff, !Z.eqb_eq. split; [intros []; congruence | intros [= -> ->]; auto].
Qed.

Lemma ref_resize_nonpos (img : Image) (w h : Z) :
  well_formed img = true ->
  w < 1 \/ h < 1 ->
  Reference.ref_resize img (w, h)
  = Raise (if c_int w && c_int h then ValueError else OverflowError).
Proof.
  intros Hwf H. unfold Reference.ref_resize.
  destruct (Reference.size_eqb (im_size img) (w, h)) eqn:Es.
  - apply size_eqb_eq in Es. apply well_formed_iff in Hwf.
    rewrite Es in Hwf. simpl in Hwf. lia.
  - destruct (c_int w && c_int h); [simpl|reflexivity].
    replace ((w <? 1) || (h <? 1)) with true; [reflexivity|].
    symmetry. apply orb_true_iff. rewrite !Z.ltb_lt. exact H.
Qed.

Lemma ref_resize_inv (img : Image) (size : Z * Z) (out : Image) :
  Reference.ref_resize img size = Ok out ->
  out = img /\ im_size img = size
  \/ 1 <= fst size /\ 1 <= snd size
     /\ out = mkImage (im_mode img) size
                (map (Reference.nearest img (fst size) (snd size))
                     (seq 0 (Z.to_nat (fst size * snd size))))
                (im_palette img).
Proof.
  destruct size as [w h]. unfold Reference.ref_resize. simpl.
  destruct (Reference.size_eqb (im_size img) (w, h)) eqn:Es.
  - intros [= <-]. apply size_eqb_eq in Es. now left.
  - destruct (c_int w && c_int h); [simpl|discriminate].
    destruct ((w <? 1) || (h <? 1)) eqn:E; [discriminate|].
    apply orb_false_iff in E. rewrite !Z.ltb_ge in E.
    intros [= <-]. right. repeat split; lia.
Qed.

Lemma ref_resize_size (img : Image) (size : Z * Z) (out : Image) :
  Reference.ref_resize img size = Ok out -> im_size out = size.
Proof.
  intros H. apply ref_resize_inv in H.
  destruct H as [[-> Hs] | (_ & _ & ->)]; [exact Hs | reflexivity].
Qed.

Lemma ref_resize_mode (img : Image) (size : Z * Z) (out : Image) :
  Reference.ref_resize img size = Ok out -> im_mode out = im_mode img.
Proof.
  intros H. apply ref_resize_inv in H.
  destruct H as [[-> _] | (_ & _ & ->)]; reflexivity.
Qed.

Lemma ref_resize_wf (img : Image) (size : Z * Z) (out : Image) :
  well_formed img = true -> Reference.ref_resize img size = Ok out ->
  well_formed out = true.
Proof.
  intros Hwf H. apply ref_resize_inv in H.
  destruct H as [[-> _] | (Hw & Hh & ->)]; [exact Hwf|].
  pose proof (well_formed_eight_bit img Hwf) as Hm.
  apply well_formed_iff in Hwf. destruct Hwf as (_ & _ & _ & Hall).
  apply well_formed_iff. destruct size as [w h]. simpl in *.
  rewrite length_map, length_seq. repeat split; try lia.
  apply Forall_map, Forall_forall. intros k _. now apply nearest_ok.
Qed.

Lemma ref_resize_same (img : Image) :
  well_formed img = true -> Reference.ref_resize img (im_size img) = Ok img.
Proof.
  intros _. unfold Reference.ref_resize. destruct (im_size img) as [w h] eqn:Es.
  replace (Reference.size_eqb (w, h) (w, h)) with true; [reflexivity|].
  symmetry. now apply size_eqb_eq.
Qed.

Lemma paste_data_length (bg src mask : list pixel) :
  List.length (Reference.paste_data bg src mask) = List.length bg.
Proof.
  revert src mask. induction bg as [|b bg IH]; intros; simpl; [reflexivity|].
  now rewrite IH.
Qed.

Lemma nth_error_tl {A : Type} (l : list A) (i : nat) :
  nth_error (tl l) i = nth_error l (S i).
Proof. destruct l; [now destruct i | reflexivity]. Qed.

Lemma paste_data_nth (bg src mask : list pixel) (i : nat) (b : pixel) :
  nth_error bg i = Some b ->
  nth_error (Reference.paste_data bg src mask) i =
  Some match nth_error src i, nth_error mask i with
       | Some s, Some (PInt m) => Reference.blend_pixel m b s
       | _, _ => b
       end.
Proof.
  revert src mask i. induction bg as [|b0 bg IH]; intros src mask i Hi.
  - destruct i; discriminate.
  - destruct i as [|i]; simpl in Hi |- *.
    + injection Hi as ->. destruct src, mask; reflexivity.
    + rewrite (IH _ _ _ Hi), !nth_error_tl. reflexivity.
Qed.

Lemma rgb_of_ok (m : mode) (s : pixel) :
  pixel_ok m s = true -> pixel_ok RGB (rgb_of s) = true.
Proof.
  unfold pixel_ok at 1. rewrite andb_true_iff. intros [Hm Hp].
  destruct s as [v | bs | x]; [| |discriminate Hp].
  - apply andb_true_iff in Hp. destruct Hp as [_ Hv].
    unfold pixel_ok. simpl. now rewrite Hv.
  - rewrite !andb_true_iff in Hp. destruct Hp as [[Hneg Hlen] Hall].
    mode_cases Hm; simpl in Hlen, Hneg; try discriminate Hneg;
      repeat (destruct bs as [|? bs]; try discriminate Hlen);
      unfold pixel_ok; simpl in Hall |- *;
      repeat match goal with
             | H : _ && _ = true |- _ => apply andb_true_iff in H; destruct H
             end;
      repeat match goal with H : byte_ok _ = true |- _ => rewrite H; clear H end;
      reflexivity.
Qed.

Lemma blend_bands_length (m : Z) (bb ss : list Z) :
  List.length (Reference.blend_bands m bb ss) = List.length bb.
Proof.
  revert ss. induction bb as [|x bb IH]; intros ss; simpl; [reflexivity|].
  destruct ss; simpl; now rewrite IH.
Qed.

Lemma blend_bands_ok (m : Z) (bb ss : list Z) :
  forallb byte_ok bb = true ->
  forallb byte_ok (Reference.blend_bands m bb ss) = true.
Proof.
  revert ss. induction bb as [|x bb IH]; intros ss; simpl; [reflexivity|].
  rewrite andb_true_iff. intros [Hx Hbb].
  destruct ss; simpl; rewrite IH by assumption.
  - now rewrite Hx.
  - now rewrite clip_ok.
Qed.

Lemma blend_pixel_ok (ms : mode) (m : Z) (b s : pixel) :
  pixel_ok RGB b = true -> pixel_ok ms s = true ->
  pixel_ok RGB (Reference.blend_pixel m b s) = true.
Proof.
  intros Hb Hs. unfold Reference.blend_pixel.
  destruct (m =? 0); [exact Hb|].
  destruct (m =? 255); [now apply rgb_of_ok with ms|].
  destruct b as [v | bb | x]; [exact Hb| |exact Hb].
  destruct (rgb_of s) as [? | ss | ?]; [exact Hb| |exact Hb].
  unfold pixel_ok in Hb |- *. simpl in Hb |- *.
  rewrite !andb_true_iff in Hb. destruct Hb as [Hlen Hall].
  now rewrite blend_bands_length, Hlen, blend_bands_ok.
Qed.

Lemma paste_data_ok (ms : mode) (bg src mask : list pixel) :
  Forall (fun p => pixel_ok RGB p = true) bg ->
  Forall (fun p => pixel_ok ms p = true) src ->
  Forall (fun p => pixel_ok RGB p = true) (Reference.paste_data bg src mask).
Proof.
  intros Hbg. revert src mask.
  induction Hbg as [|b bg Hb Hbg IH]; intros src mask Hsrc; simpl; constructor.
  - destruct src as [|s src]; [exact Hb|].
    destruct mask as [|[m | ? | ?] mask]; try exact Hb.
    apply blend_pixel_ok with ms; [exact Hb | now inversion Hsrc].
  - apply IH. destruct src; [constructor | now inversion Hsrc].
Qed.

Lemma ref_paste_wf (bg src mask : Image) :
  im_mode bg = RGB ->
  well_formed bg = true -> well_formed src = true ->
  well_formed (Reference.ref_paste bg src mask) = true.
Proof.
  rewrite !well_formed_iff. simpl.
  intros Hm (Hw & Hh & Hlen & Hall) (_ & _ & _ & Hsrc).
  rewrite paste_data_length, Hm in *. repeat split; trivial.
  now apply paste_data_ok with (im_mode src).
Qed.

Lemma ref_paste_transparent (bg src mask : Image) (i : nat) (b : pixel) :
  nth_error (im_data bg) i = Some b ->
  nth_error (im_data mask) i = Some (PInt 0) ->
  nth_error (im_data (Reference.ref_paste bg src mask)) i = Some b.
Proof.
  intros Hb Hm. simpl. rewrite (paste_data_nth _ _ _ _ _ Hb), Hm.
  now destruct (nth_error (im_data src) i).
Qed.

Lemma ref_paste_opaque (bg src mask : Image) (i : nat) (b s : pixel) :
  im_mode bg = RGB ->
  nth_error (im_data bg) i = Some b ->
  nth_error (im_data src) i = Some s ->
  nth_error (im_data mask) i = Some (PInt 255) ->
  nth_error (im_data (Reference.ref_paste bg src mask)) i = Some (rgb_of s).
Proof.
  intros _ Hb Hs Hm. simpl. now rewrite (paste_data_nth _ _ _ _ _ Hb), Hs, Hm.
Qed.

#[global]
Instance ref_imaging : Imaging := {|
  convert := Reference.ref_convert;
  resize := Reference.ref_resize;
  paste := Reference.ref_paste;
  convert_mode := ref_convert_mode;
  convert_size := ref_convert_size;
  convert_wf := ref_convert_wf;
  convert_same := ref_convert_same;
  convert_grey := ref_convert_grey;
  resize_nonpos := ref_resize_nonpos;
  resize_size := ref_resize_size;
  resize_mode := ref_resize_mode;
  resize_wf := ref_resize_wf;
  resize_same := ref_resize_same;
  paste_mode := fun _ _ _ => eq_refl;
  paste_size := fun _ _ _ => eq_refl;
  paste_palette := fun _ _ _ => eq_refl;
  paste_length := fun bg src mask =>
    paste_data_length (im_data bg) (im_data src) (im_data mask);
  paste_wf := ref_paste_wf;
  paste_transparent := ref_paste_transparent;
  paste_opaque := ref_paste_opaque
|}.

(** ** The character ramp *)

Lemma byte_cases (check : Z -> bool) :
  forallb check (map Z.of_nat (seq 0 256)) = true ->
  forall p, 0 <= p <= 255 -> check p = true.
Proof.
  intros Hall p Hp. rewrite forallb_forall in Hall. apply Hall.
  rewrite <- (Z2Nat.id p) by lia. apply in_map, in_seq. lia.
Qed.

Lemma ramp_index_floor (p : Z) :
  0 <= p <= 255 -> ramp_index p = Ok (p * 9 / 255).
Proof.
  intros Hp.
  assert (H : ramp_index_is_floor p = true).
  { apply byte_cases; [vm_compute; reflexivity | exact Hp]. }
  unfold ramp_index_is_floor in H.
  destruct (ramp_index p) as [i | e]; [|discriminate].
  apply Z.eqb_eq in H. now subst.
Qed.

Lemma floor_index_range (p : Z) : 0 <= p <= 255 -> 0 <= p * 9 / 255 <= 9.
Proof.
  intros Hp. split.
  - apply Z.div_pos; lia.
  - assert (p * 9 / 255 < 10); [|lia]. apply Z.div_lt_upper_bound; lia.
Qed.

Lemma str_index_ramp (i : Z) :
  0 <= i <= 9 ->
  Py.str_index ASCII_CHARS i =
  Ok (nth (Z.to_nat i) (list_ascii_of_string ASCII_CHARS) " "%char).
Proof.
  intros Hi.
  assert (Hc : i = 0 \/ i = 1 \/ i = 2 \/ i = 3 \/ i = 4 \/ i = 5 \/ i = 6
               \/ i = 7 \/ i = 8 \/ i = 9) by lia.
  repeat (destruct Hc as [-> | Hc]; [reflexivity|]). now subst.
Qed.

Lemma ascii_of_pixel_ramp (p : Z) :
  0 <= p <= 255 -> ascii_of_pixel (PInt p) = Ok (ramp_char p).
Proof.
  intros Hp. unfold ascii_of_pixel. rewrite (ramp_index_floor p Hp). simpl bind.
  rewrite str_index_ramp by now apply floor_index_range. reflexivity.
Qed.

Lemma mapM_ok_map {A B : Type} (f : A -> result B) (g : A -> B) (l : list A) :
  Forall (fun a => f a = Ok (g a)) l -> mapM f l = Ok (map g l).
Proof.
  induction 1 as [|a l Ha _ IH]; simpl; [reflexivity|].
  now rewrite Ha, IH.
Qed.

Lemma grayscale_pixels (img : Image) :
  grayscale img ->
  Forall (fun px => exists v, px = PInt v /\ 0 <= v <= 255) (im_data img).
Proof.
  intros [Hm Hwf]. apply well_formed_iff in Hwf.
  destruct Hwf as (_ & _ & _ & Hall). rewrite Hm in Hall.
  eapply Forall_impl; [|exact Hall]. intros [v | bs | x]; simpl.
  - intros H. exists v. split; [reflexivity | now apply byte_ok_iff].
  - discriminate.
  - discriminate.
Qed.

Lemma pixels_to_ascii_bytes (img : Image) :
  Forall (fun px => exists v, px = PInt v /\ 0 <= v <= 255) (im_data img) ->
  pixels_to_ascii img =
  Ok (string_of_list_ascii (map (fun px => ramp_char (luminance px))
                                (getdata img))).
Proof.
  intros Hall. unfold pixels_to_ascii, getdata.
  rewrite (mapM_ok_map _ (fun px => ramp_char (luminance px))); [reflexivity|].
  eapply Forall_impl; [|exact Hall].
  intros px (v & -> & Hv). now apply ascii_of_pixel_ramp.
Qed.

(** ** Rows *)

Lemma length_list_ascii (s : string) :
  List.length (list_ascii_of_string s) = String.length s.
Proof. induction s; simpl; congruence. Qed.

Lemma length_string_of_list (l : list ascii) :
  String.length (string_of_list_ascii l) = List.length l.
Proof. induction l; simpl; congruence. Qed.

Lemma substring_list (a n : nat) (s : string) :
  list_ascii_of_string (substring a n s) =
  firstn n (skipn a (list_ascii_of_string s)).
Proof.
  revert a n. induction s as [|c s IH]; intros a n.
  - destruct a, n; reflexivity.
  - destruct a as [|a].
    + destruct n as [|n]; simpl; [reflexivity|]. now rewrite IH.
    + simpl. apply IH.
Qed.

Lemma firstn_min_length {A : Type} (w : nat) (l : list A) :
  firstn (Nat.min w (List.length l)) l = firstn w l.
Proof.
  destruct (Nat.le_gt_cases w (List.length l)) as [H | H].
  - now rewrite Nat.min_l.
  - rewrite Nat.min_r by lia. rewrite firstn_all, firstn_all2 by lia. reflexivity.
Qed.

Lemma str_slice_row (s : string) (i w : Z) :
  0 <= i -> 0 < w ->
  Py.str_slice s i (i + w) =
  string_of_list_ascii
    (firstn (Z.to_nat w) (skipn (Z.to_nat i) (list_ascii_of_string s))).
Proof.
  intros Hi Hw. unfold Py.str_slice, Py.slice_bound.
  rewrite <- (string_of_list_ascii_of_string (substring _ _ s)).
  f_equal. rewrite substring_list.
  replace (i <? 0) with false by (symmetry; apply Z.ltb_ge; lia).
  replace (i + w <? 0) with false by (symmetry; apply Z.ltb_ge; lia).
  set (n := Z.of_nat (String.length s)).
  set (l := list_ascii_of_string s).
  assert (Hn : n = Z.of_nat (List.length l)).
  { unfold n, l. now rewrite length_list_ascii. }
  destruct (Z.le_gt_cases n i) as [Hge | Hlt].
  - rewrite (Z.min_r i n) by lia.
    rewrite (skipn_all2 l) by lia.
    rewrite skipn_all2 by lia. now rewrite !firstn_nil.
  - rewrite (Z.min_l i n) by lia.
    rewrite <- (firstn_min_length (Z.to_nat w)). f_equal.
    rewrite length_skipn. lia.
Qed.

Lemma range_rows (s : string) (w : Z) (fuel : nat) (start : Z) :
  0 <= start -> 0 < w ->
  map (fun index => Py.str_slice s index (index + w))
      (Py.range_from fuel start (Z.of_nat (String.length s)) w) =
  map string_of_list_ascii
      (chunks fuel (Z.to_nat w)
              (skipn (Z.to_nat start) (list_ascii_of_string s))).
Proof.
  intros Hs Hw. revert start Hs.
  induction fuel as [|fuel IH]; intros start Hs; simpl; [reflexivity|].
  rewrite <- length_list_ascii.
  set (l := list_ascii_of_string s).
  destruct (start <? Z.of_nat (List.length l)) eqn:E.
  - apply Z.ltb_lt in E.
    destruct (skipn (Z.to_nat start) l) as [|c rest] eqn:Ek.
    + apply (f_equal (@List.length ascii)) in Ek.
      rewrite length_skipn in Ek. simpl in Ek. lia.
    + rewrite <- Ek. simpl map. f_equal.
      * now apply str_slice_row.
      * unfold l. rewrite length_list_ascii, IH by lia.
        rewrite skipn_skipn. do 3 f_equal. lia.
  - apply Z.ltb_ge in E. rewrite skipn_all2 by lia. reflexivity.
Qed.

Lemma join_rows_chunks (s : string) (w : Z) :
  0 < w -> join_rows s w = Ok (String.concat newline (rows_of w s)).
Proof.
  intros Hw. unfold join_rows, Py.range0, rows_of.
  replace (w =? 0) with false by (symmetry; apply Z.eqb_neq; lia).
  replace (w <? 0) with false by (symmetry; apply Z.ltb_ge; lia).
  simpl bind. rewrite range_rows by lia. rewrite Nat2Z.id. reflexivity.
Qed.

Lemma chunks_step {A : Type} (w fuel : nat) (l : list A) :
  l <> [] -> chunks (S fuel) w l = firstn w l :: chunks fuel w (skipn w l).
Proof. destruct l; [congruence | reflexivity]. Qed.

Lemma chunks_exact {A : Type} (w h fuel : nat) (l : list A) :
  (0 < w)%nat -> List.length l = (h * w)%nat -> (h <= fuel)%nat ->
  List.length (chunks fuel w l) = h
  /\ Forall (fun row => List.length row = w) (chunks fuel w l).
Proof.
  intros Hw. revert fuel l.
  induction h as [|h IH]; intros fuel l Hl Hf.
  - destruct l; [|discriminate]. destruct fuel; simpl; auto.
  - destruct fuel as [|fuel]; [lia|].
    assert (Hne : l <> []) by (intros ->; simpl in Hl; lia).
    rewrite (chunks_step w fuel l Hne).
    destruct (IH fuel (skipn w l)) as [Hn Hall].
    + rewrite length_skipn. lia.
    + lia.
    + split; [simpl; now rewrite Hn|].
      constructor; [|exact Hall]. rewrite length_firstn. lia.
Qed.

(** ** The pipeline, stage by stage *)

Lemma bind_ok_inv {A B : Type} (m : result A) (k : A -> result B) (b : B) :
  (x <- m ;; k x) = Ok b -> exists a, m = Ok a /\ k a = Ok b.
Proof. destruct m as [a | e]; simpl; [eauto | discriminate]. Qed.

Ltac bind_inv H :=
  let a := fresh "a" in
  let Ha := fresh "Ha" in
  apply bind_ok_inv in H; destruct H as (a & Ha & H).

Lemma Image_new_wf (m : mode) (size : Z * Z) (color : pixel) :
  0 < fst size -> 0 < snd size -> pixel_ok m color = true ->
  well_formed (Image_new m size color) = true.
Proof.
  intros Hw Hh Hc. apply well_formed_iff. simpl.
  rewrite repeat_length. repeat split; try lia.
  apply Forall_forall. intros p Hp. now rewrite (repeat_spec _ _ _ Hp).
Qed.

Lemma point_binarize_pixels (img : Image) (t : Z) :
  Forall (fun px => exists v, px = PInt v) (im_data img) ->
  Forall (fun px => px = PInt 0 \/ px = PInt 255)
         (im_data (point img (binarize t))).
Proof.
  intros Hall. simpl. apply Forall_map.
  eapply Forall_impl; [|exact Hall]. intros px [v ->].
  unfold binarize. destruct (t <? v); auto.
Qed.

Section Pipeline.

Context {lib : Imaging}.

Lemma truncated_height_new_height (size : Z * Z) (W : Z) (r : float) (H : Z) :
  new_height_for size W r = Ok H <->
  exists t, truncated_height size W r = Ok t /\ H = if t =? 0 then 1 else t.
Proof.
  unfold new_height_for, truncated_height. destruct size as [w h].
  destruct (Py.int_truediv h w) as [q | e]; simpl; [|split; [discriminate | intros (t & Ht & _); discriminate]].
  destruct (Py.float_div q r) as [ratio | e]; simpl; [|split; [discriminate | intros (t & Ht & _); discriminate]].
  destruct (Py.int_mul_float W ratio) as [s | e]; simpl; [|split; [discriminate | intros (t & Ht & _); discriminate]].
  destruct (Py.int_of_float s) as [t | e]; simpl; [|split; [discriminate | intros (t & Ht & _); discriminate]].
  split.
  - intros [= <-]. eauto.
  - intros (t' & [= <-] & ->). reflexivity.
Qed.

Lemma resize_image_inv (img : Image) (W : Z) (r : float) (out : Image) :
  well_formed img = true ->
  resize_image img W r = Ok out ->
  exists t, truncated_height (im_size img) W r = Ok t
            /\ 0 <= t /\ 1 <= W
            /\ resize img (W, Z.max 1 t) = Ok out.
Proof.
  unfold resize_image. intros Hwf H. bind_inv H.
  apply truncated_height_new_height in Ha. destruct Ha as (t & Ht & ->).
  exists t. split; [exact Ht|].
  set (H' := if t =? 0 then 1 else t) in *.
  assert (Hpos : 1 <= W /\ 1 <= H').
  { destruct (Z_lt_le_dec W 1) as [Hw | Hw];
      [rewrite resize_nonpos in H by auto; discriminate|].
    destruct (Z_lt_le_dec H' 1) as [Hh | Hh];
      [rewrite resize_nonpos in H by auto; discriminate|].
    auto. }
  destruct Hpos as [HW HH]. unfold H' in *.
  destruct (Z.eqb_spec t 0) as [-> | Hne].
  - repeat split; try lia. exact H.
  - repeat split; try lia. now rewrite Z.max_r by lia.
Qed.

Lemma normalize_color_cases (img : Image) :
  exists out, normalize_color img = Ok out
              /\ im_mode out <> P /\ im_mode out <> RGBA /\ im_mode out <> LA
              /\ (im_mode img = L \/ im_mode img = RGB -> out = img)
              /\ (well_formed img = true ->
                  well_formed out = true /\ im_size out = im_size img).
Proof.
  unfold normalize_color.
  set (img1 := if mode_eqb (im_mode img) P then convert img RGBA else img).
  assert (Hwf1 : well_formed img = true ->
                 well_formed img1 = true /\ im_size img1 = im_size img).
  { intros Hwf. unfold img1. destruct (mode_eqb (im_mode img) P).
    - split; [now apply convert_wf | now apply convert_size].
    - auto. }
  assert (Hm1 : im_mode img1 <> P).
  { unfold img1. destruct (mode_eqb (im_mode img) P) eqn:E.
    - rewrite convert_mode by reflexivity. discriminate.
    - intros Hp. apply mode_eqb_eq in Hp. congruence. }
  assert (Hid : im_mode img = L \/ im_mode img = RGB -> img1 = img).
  { intros [Hm | Hm]; unfold img1; now rewrite Hm. }
  assert (Hbg : well_formed img = true ->
                well_formed (Image_new RGB (im_size img1) white) = true).
  { intros Hwf. destruct (Hwf1 Hwf) as [Hw1 _].
    apply well_formed_iff in Hw1. apply Image_new_wf; tauto. }
  assert (Halpha : im_mode img1 = RGBA \/ im_mode img1 = LA ->
                   ~ (im_mode img = L \/ im_mode img = RGB)).
  { intros Ha Hm. rewrite (Hid Hm) in Ha.
    destruct Ha as [Ha | Ha], Hm as [Hm | Hm]; rewrite Hm in Ha;
      discriminate Ha. }
  destruct (mode_eqb (im_mode img1) RGBA) eqn:ERGBA;
    [|destruct (mode_eqb (im_mode img1) LA) eqn:ELA]; simpl.
  - (* RGBA *)
    apply mode_eqb_eq in ERGBA.
    unfold split. rewrite ERGBA. simpl. eexists. split; [reflexivity|].
    rewrite paste_mode. simpl. repeat split; try discriminate.
    + intros Hm. exfalso. apply Halpha; auto.
    + apply paste_wf; [reflexivity | now apply Hbg | now apply Hwf1].
    + rewrite paste_size. simpl. now apply Hwf1.
  - (* LA *)
    apply mode_eqb_eq in ELA.
    unfold split. rewrite ELA. simpl. eexists. split; [reflexivity|].
    rewrite paste_mode. simpl. repeat split; try discriminate.
    + intros Hm. exfalso. apply Halpha; auto.
    + apply paste_wf; [reflexivity | now apply Hbg | now apply Hwf1].
    + rewrite paste_size. simpl. now apply Hwf1.
  - (* any other mode *)
    exists img1. repeat split; auto.
    + intros Hm. apply mode_eqb_eq in Hm. congruence.
    + intros Hm. apply mode_eqb_eq in Hm. congruence.
    + now apply Hwf1.
    + now apply Hwf1.
Qed.

End Pipeline.

Section Stages.

Context {lib : Imaging}.

Lemma grayify_grayscale (img : Image) :
  well_formed img = true -> grayscale (grayify img).
Proof.
  intros Hwf. split; [now apply convert_mode | now apply convert_wf].
Qed.

Lemma point_binarize_grayscale (img : Image) (t : Z) :
  grayscale img -> grayscale (point img (binarize t)).
Proof.
  intros [Hm Hwf]. split; [exact Hm|].
  apply well_formed_iff in Hwf. destruct Hwf as (Hw & Hh & Hlen & Hall).
  apply well_formed_iff. simpl. rewrite length_map. repeat split; trivial.
  apply Forall_map. eapply Forall_impl; [|exact Hall].
  rewrite Hm. intros [v | bs | x]; simpl; [|discriminate|discriminate].
  intros _. unfold binarize. now destruct (t <? v).
Qed.

Lemma mapped_image_grayscale (resized : Image) (threshold : option Z) :
  well_formed resized = true ->
  grayscale (mapped_image resized threshold)
  /\ im_size (mapped_image resized threshold) = im_size resized.
Proof.
  intros Hwf. pose proof (grayify_grayscale resized Hwf) as Hg.
  destruct threshold as [t|]; simpl.
  - split; [now apply point_binarize_grayscale | now apply convert_size].
  - split; [exact Hg | now apply convert_size].
Qed.

Lemma render_unfold (img : Image) (W : Z) (r : float) (threshold : option Z) :
  render img W r threshold =
  (n <- normalize_color img ;;
   resized <- resize_image n W r ;;
   data <- pixels_to_ascii (mapped_image resized threshold) ;;
   join_rows data W).
Proof. unfold render, mapped_image. now destruct threshold. Qed.

Lemma resized_stages (img n resized : Image) (W : Z) (r : float)
      (threshold : option Z) :
  well_formed img = true ->
  normalize_color img = Ok n ->
  resize_image n W r = Ok resized ->
  exists out, render img W r threshold = Ok out
              /\ stages img W r threshold out.
Proof.
  intros Hwf Hn Hr.
  destruct (normalize_color_cases img) as (n' & Hn' & _ & _ & _ & _ & Hnwf).
  assert (n' = n) by congruence. subst n'.
  destruct (Hnwf Hwf) as [Hwfn _].
  destruct (resize_image_inv _ _ _ _ Hwfn Hr) as (t & Ht & Ht0 & HW & Hrs).
  pose proof (resize_size _ _ _ Hrs) as Hsize.
  pose proof (resize_wf _ _ _ Hwfn Hrs) as Hwfr.
  destruct (mapped_image_grayscale resized threshold Hwfr) as [Hg Hgs].
  pose proof (pixels_to_ascii_bytes _ (grayscale_pixels _ Hg)) as Hdata.
  eexists. split.
  - rewrite render_unfold, Hn. simpl bind. rewrite Hr. simpl bind.
    rewrite Hdata. simpl bind. apply join_rows_chunks. lia.
  - apply (mkStages img W r threshold _ n resized (Z.max 1 t));
      try assumption; try reflexivity; try lia.
    rewrite Hgs. exact Hsize.
Qed.

Lemma render_stages (img : Image) (W : Z) (r : float) (threshold : option Z)
      (out : string) :
  well_formed img = true ->
  render img W r threshold = Ok out ->
  stages img W r threshold out.
Proof.
  intros Hwf H. pose proof H as H0. rewrite render_unfold in H.
  bind_inv H. bind_inv H.
  destruct (resized_stages img a a0 W r threshold Hwf Ha Ha0) as (out' & Ho & Hs).
  assert (out' = out) by congruence. now subst.
Qed.

End Stages.

(** ** Rows of a complete grid *)

Lemma rows_of_exact (s : string) (W H : Z) :
  1 <= W -> 0 <= H -> Z.of_nat (String.length s) = W * H ->
  List.length (rows_of W s) = Z.to_nat H
  /\ Forall (fun row => Z.of_nat (String.length row) = W) (rows_of W s).
Proof.
  intros HW HH Hlen. unfold rows_of.
  destruct (chunks_exact (Z.to_nat W) (Z.to_nat H) (String.length s)
                         (list_ascii_of_string s)) as [Hn Hall].
  - lia.
  - rewrite length_list_ascii. apply Nat2Z.inj.
    rewrite Nat2Z.inj_mul, !Z2Nat.id by lia. lia.
  - apply Nat2Z.inj_le. rewrite Z2Nat.id, Hlen by lia.
    replace H with (1 * H) at 1 by lia. apply Z.mul_le_mono_nonneg_r; lia.
  - rewrite length_map. split; [exact Hn|].
    apply Forall_map. eapply Forall_impl; [|exact Hall].
    intros row Hrow. simpl in Hrow |- *. rewrite length_string_of_list. lia.
Qed.

Lemma Forall_firstn_skipn {A : Type} (Q : A -> Prop) (n : nat) (l : list A) :
  Forall Q l -> Forall Q (firstn n l) /\ Forall Q (skipn n l).
Proof.
  intros Hl. rewrite <- (firstn_skipn n l) in Hl.
  now apply Forall_app in Hl.
Qed.

Lemma chunks_Forall {A : Type} (Q : A -> Prop) (fuel w : nat) (l : list A) :
  Forall Q l -> Forall (Forall Q) (chunks fuel w l).
Proof.
  revert l. induction fuel as [|fuel IH]; intros l Hl; simpl; [constructor|].
  destruct l as [|a l']; constructor.
  - now apply Forall_firstn_skipn.
  - apply IH. now apply Forall_firstn_skipn.
Qed.

Lemma rows_of_Forall (Q : ascii -> Prop) (W : Z) (l : list ascii) :
  Forall Q l ->
  Forall (fun row => Forall Q (list_ascii_of_string row))
         (rows_of W (string_of_list_ascii l)).
Proof.
  intros Hl. unfold rows_of. apply Forall_map.
  rewrite list_ascii_of_string_of_list_ascii.
  eapply Forall_impl; [|apply chunks_Forall; exact Hl].
  intros row Hrow. simpl. now rewrite list_ascii_of_string_of_list_ascii.
Qed.

Lemma split_on_line (c : ascii) (x : string) :
  Forall (fun a => a <> c) (list_ascii_of_string x) -> split_on c x = [x].
Proof.
  induction x as [|a x IH]; intros Hall; [reflexivity|].
  simpl in Hall. apply Forall_cons_iff in Hall. destruct Hall as [Ha Hx].
  simpl. destruct (Ascii.eqb_spec a c) as [-> | _]; [congruence|].
  now rewrite IH.
Qed.

Lemma split_on_append (c : ascii) (x rest : string) :
  Forall (fun a => a <> c) (list_ascii_of_string x) ->
  split_on c (x ++ String c rest) = x :: split_on c rest.
Proof.
  induction x as [|a x IH]; intros Hall.
  - simpl. now rewrite Ascii.eqb_refl.
  - simpl in Hall. apply Forall_cons_iff in Hall. destruct Hall as [Ha Hx].
    simpl. destruct (Ascii.eqb_spec a c) as [-> | _]; [congruence|].
    now rewrite IH.
Qed.

Lemma split_on_concat (c : ascii) (rows : list string) :
  rows <> [] ->
  Forall (fun row => Forall (fun a => a <> c) (list_ascii_of_string row)) rows ->
  split_on c (String.concat (String c EmptyString) rows) = rows.
Proof.
  induction rows as [|x rows IH]; intros Hne Hall; [congruence|].
  apply Forall_cons_iff in Hall. destruct Hall as [Hx Hrows].
  destruct rows as [|y rows].
  - simpl. now apply split_on_line.
  - change (String.concat (String c EmptyString) (x :: y :: rows))
      with (x ++ String c (String.concat (String c EmptyString) (y :: rows)))%string.
    rewrite split_on_append by assumption.
    now rewrite IH.
Qed.

Lemma ramp_member_not_line_feed (a : ascii) :
  ramp_member a -> a <> "010"%char.
Proof.
  unfold ramp_member. simpl. intros H Ha. subst a.
  repeat (destruct H as [H | H]; [discriminate H|]). exact H.
Qed.

Lemma ramp_char_member (p : Z) : 0 <= p <= 255 -> ramp_member (ramp_char p).
Proof.
  intros Hp. unfold ramp_member, ramp_char.
  pose proof (floor_index_range p Hp) as Hi. apply nth_In.
  change (Z.of_nat (String.length ASCII_CHARS) - 1) with 9.
  change (List.length (list_ascii_of_string ASCII_CHARS)) with 10%nat. lia.
Qed.

Lemma grayscale_length (img : Image) (W H : Z) :
  grayscale img -> im_size img = (W, H) ->
  Z.of_nat (List.length (getdata img)) = W * H.
Proof.
  intros [_ Hwf] Hs. apply well_formed_iff in Hwf. rewrite Hs in Hwf.
  simpl in Hwf. unfold getdata. tauto.
Qed.

(** ** Character mapping *)

(** C2: the mapping step takes the pixels of a grayscale image in row-major
    order, sends each luminance [p] to the character at index
    [floor(p * (rampLength - 1) / 255)] of the ten-character ramp (0 to ['@'],
    255 to the space), and the row step cuts the concatenation into rows of
    [width] characters joined by newlines. *)
Theorem C2_character_mapping (img : Image) (width : Z)
        (Hgray : grayscale img) (Hwidth : 0 < width) :
  ASCII_CHARS = "@%#*+=-:. "%string
  /\ String.length ASCII_CHARS = 10%nat
  /\ (forall p, 0 <= p <= 255 -> ascii_of_pixel (PInt p) = Ok (ramp_char p))
  /\ ramp_char 0 = at_sign /\ ramp_char 255 = space
  /\ pixels_to_ascii img =
     Ok (string_of_list_ascii
           (map (fun px => ramp_char (luminance px)) (im_data img)))
  /\ (forall data,
        join_rows data width =
        Ok (String.concat (String "010"%char EmptyString) (rows_of width data))).
Proof.
  repeat split; try reflexivity.
  - intros p Hp. now apply ascii_of_pixel_ramp.
  - now apply pixels_to_ascii_bytes, grayscale_pixels.
  - intros data. now apply join_rows_chunks.
Qed.

(** C10: for a luminance in 0..255 the index [int(p * 9 / 255)] is in 0..9,
    so the ramp lookup succeeds on every grayscale image, and also after
    binarization with any integer threshold, whose values are only 0 and
    255. *)
Theorem C10_ramp_index_in_bounds (img : Image) (p threshold : Z)
        (Hp : 0 <= p <= 255) (Hgray : grayscale img) :
  (exists i c, ramp_index p = Ok i /\ 0 <= i <= 9
               /\ Py.str_index ASCII_CHARS i = Ok c
               /\ ascii_of_pixel (PInt p) = Ok c)
  /\ (exists s, pixels_to_ascii img = Ok s)
  /\ (forall v, binarize threshold v = 0 \/ binarize threshold v = 255)
  /\ (exists s, pixels_to_ascii (point img (binarize threshold)) = Ok s).
Proof.
  repeat split.
  - exists (p * 9 / 255), (ramp_char p).
    pose proof (floor_index_range p Hp) as Hi.
    repeat split; try lia.
    + now apply ramp_index_floor.
    + now apply str_index_ramp.
    + now apply ascii_of_pixel_ramp.
  - eexists. now apply pixels_to_ascii_bytes, grayscale_pixels.
  - intros v. unfold binarize. destruct (threshold <? v); auto.
  - eexists. apply pixels_to_ascii_bytes, grayscale_pixels.
    now apply point_binarize_grayscale.
Qed.

Lemma gray3x2_grayscale : grayscale gray3x2.
Proof. split; reflexivity. Qed.

Lemma C2_character_mapping_witness :
  pixels_to_ascii gray3x2 = Ok "@* @@."%string
  /\ join_rows "@* @@." 3
     = Ok (String.concat (String "010"%char EmptyString) ["@* "; "@@."])%string.
Proof.
  destruct (C2_character_mapping gray3x2 3
              gray3x2_grayscale ltac:(lia))
    as (_ & _ & _ & _ & _ & Hmap & Hrows).
  split; [exact Hmap | exact (Hrows "@* @@."%string)].
Defined.

Lemma C10_ramp_index_in_bounds_witness :
  exists s, pixels_to_ascii (point gray3x2 (binarize 300)) = Ok s.
Proof.
  destruct (C10_ramp_index_in_bounds gray3x2 255 300
              ltac:(lia) gray3x2_grayscale)
    as (_ & _ & _ & H).
  exact H.
Defined.

(** ** Threshold, rows and grayscale *)

Lemma binarized_data (g : Image) (t : Z) :
  grayscale g ->
  im_data (point g (binarize t)) =
  map (fun px => PInt (if luminance px >? t then 255 else 0)) (im_data g).
Proof.
  intros Hg. simpl. apply map_ext_in. intros px Hin.
  pose proof (grayscale_pixels g Hg) as Hall. rewrite Forall_forall in Hall.
  destruct (Hall px Hin) as (v & -> & _). simpl.
  unfold binarize. now rewrite Z.gtb_ltb.
Qed.

Lemma two_level_chars (l : list pixel) :
  Forall (fun px => px = PInt 0 \/ px = PInt 255) l ->
  Forall (fun c => c = at_sign \/ c = space)
         (map (fun px => ramp_char (luminance px)) l).
Proof.
  intros Hl. apply Forall_map. eapply Forall_impl; [|exact Hl].
  intros px [-> | ->]; [left | right]; reflexivity.
Qed.

Section Claims.

Context {lib : Imaging}.

(** C3: with a threshold, the grayscale image is binarized before the
    mapping (255 where the luminance is strictly greater than the threshold,
    0 elsewhere), so every character of every output row is ['@'] or the
    space. *)
Theorem C3_threshold_two_levels (img : Image) (W : Z) (r : float) (t : Z)
        (out : string)
        (Hwf : well_formed img = true)
        (Hrun : render img W r (Some t) = Ok out) :
  exists normal resized data,
    normalize_color img = Ok normal
    /\ resize_image normal W r = Ok resized
    /\ im_data (point (grayify resized) (binarize t)) =
       map (fun px => PInt (if luminance px >? t then 255 else 0))
           (im_data (grayify resized))
    /\ pixels_to_ascii (point (grayify resized) (binarize t)) = Ok data
    /\ Forall (fun c => c = at_sign \/ c = space) (list_ascii_of_string data)
    /\ out = String.concat newline (rows_of W data)
    /\ Forall (fun row => Forall (fun c => c = at_sign \/ c = space)
                                 (list_ascii_of_string row))
              (rows_of W data).
Proof.
  destruct (render_stages img W r (Some t) out Hwf Hrun)
    as [normal resized height Hn Hr HW HH Hsize Hrwf Hg Hgs Hdata Hout].
  simpl mapped_image in *.
  pose proof (grayify_grayscale resized Hrwf) as Hgray.
  assert (Hchars : Forall (fun c => c = at_sign \/ c = space)
            (map (fun px => ramp_char (luminance px))
                 (getdata (point (grayify resized) (binarize t))))).
  { apply two_level_chars, point_binarize_pixels.
    eapply Forall_impl; [|apply (grayscale_pixels _ Hgray)].
    intros px (v & -> & _). eauto. }
  exists normal, resized. eexists. repeat split; try eassumption.
  - now apply binarized_data.
  - now rewrite list_ascii_of_string_of_list_ascii.
  - now apply rows_of_Forall.
Qed.

(** C4: the flattened luminance sequence has exactly [W * height] values
    for the resized grid of [W] columns, so the lines of the output (its
    pieces between line feeds) are [height] in number and every one has
    exactly [W] ramp characters. *)
Theorem C4_rows_complete (img : Image) (W : Z) (r : float)
        (threshold : option Z) (out : string)
        (Hwf : well_formed img = true)
        (Hrun : render img W r threshold = Ok out) :
  exists normal resized height data,
    normalize_color img = Ok normal
    /\ resize_image normal W r = Ok resized
    /\ im_size resized = (W, height) /\ 1 <= W /\ 1 <= height
    /\ Z.of_nat (List.length (getdata (mapped_image resized threshold)))
       = W * height
    /\ pixels_to_ascii (mapped_image resized threshold) = Ok data
    /\ Z.of_nat (String.length data) = W * height
    /\ out = String.concat (String "010"%char EmptyString) (rows_of W data)
    /\ split_on "010"%char out = rows_of W data
    /\ List.length (split_on "010"%char out) = Z.to_nat height
    /\ Forall (fun line => Z.of_nat (String.length line) = W
                           /\ Forall ramp_member (list_ascii_of_string line))
              (split_on "010"%char out).
Proof.
  destruct (render_stages img W r threshold out Hwf Hrun)
    as [normal resized height Hn Hr HW HH Hsize Hrwf Hg Hgs Hdata Hout].
  pose proof (grayscale_length _ _ _ Hg Hgs) as Hlen.
  set (g := mapped_image resized threshold) in *.
  set (chars := map (fun px => ramp_char (luminance px)) (getdata g)) in *.
  assert (Hslen : Z.of_nat (String.length (string_of_list_ascii chars))
                  = W * height).
  { rewrite length_string_of_list. unfold chars. now rewrite length_map. }
  destruct (rows_of_exact _ W height HW ltac:(lia) Hslen) as [Hcount Hwidth].
  assert (Hmem : Forall ramp_member chars).
  { unfold chars. apply Forall_map.
    eapply Forall_impl; [|apply (grayscale_pixels _ Hg)].
    intros px (v & -> & Hv). now apply ramp_char_member. }
  pose proof (rows_of_Forall ramp_member W chars Hmem) as Hrows.
  assert (Hlines : split_on "010"%char out
                   = rows_of W (string_of_list_ascii chars)).
  { rewrite Hout. apply split_on_concat.
    - intros Hnil. rewrite Hnil in Hcount. simpl in Hcount. lia.
    - eapply Forall_impl; [|exact Hrows]. intros row Hrow.
      eapply Forall_impl; [|exact Hrow].
      intros a Ha. now apply ramp_member_not_line_feed. }
  exists normal, resized, height, (string_of_list_ascii chars).
  rewrite Hlines.
  repeat split; try assumption.
  rewrite Forall_forall in *. intros row Hin. split; auto.
Qed.

(** C7: grayscale conversion of an image that is already single-channel
    grayscale changes neither a pixel nor the dimensions, and converting
    twice is converting once. *)
Theorem C7_grayify_idempotent (img : Image) (Hmode : im_mode img = L) :
  grayify img = img
  /\ getdata (grayify img) = getdata img
  /\ im_size (grayify img) = im_size img
  /\ (forall any, grayify (grayify any) = grayify any).
Proof.
  assert (Hsame : grayify img = img).
  { unfold grayify. rewrite <- Hmode. apply convert_same. }
  repeat split; try now rewrite Hsame.
  intros any. unfold grayify.
  rewrite <- (convert_mode any L eq_refl) at 2. apply convert_same.
Qed.

End Claims.

Lemma C3_threshold_two_levels_witness :
  exists data,
    String.concat newline ["@@ "; "@@ "]%string
    = String.concat newline (rows_of 3 data)
    /\ Forall (fun row => Forall (fun c => c = at_sign \/ c = space)
                                 (list_ascii_of_string row))
              (rows_of 3 data).
Proof.
  destruct (C3_threshold_two_levels (lib := ref_imaging) gray3x2 3 1%float 100
              (String.concat newline ["@@ "; "@@ "]%string)
              ltac:(vm_compute; reflexivity) ltac:(vm_compute; reflexivity))
    as (normal & resized & data & _ & _ & _ & _ & _ & Hout & Hrows).
  exists data. split; assumption.
Defined.

Lemma C4_rows_complete_witness :
  exists height,
    1 <= height
    /\ List.length
         (split_on "010"%char
            (String.concat (String "010"%char EmptyString)
               ["@@**  "; "@@**  "; "@@@@.."; "@@@@.."]%string))
       = Z.to_nat height
    /\ Forall (fun line => Z.of_nat (String.length line) = 6
                           /\ Forall ramp_member (list_ascii_of_string line))
              (split_on "010"%char
                 (String.concat (String "010"%char EmptyString)
                    ["@@**  "; "@@**  "; "@@@@.."; "@@@@.."]%string)).
Proof.
  destruct (C4_rows_complete (lib := ref_imaging) gray3x2 6 1%float None
              (String.concat (String "010"%char EmptyString)
                 ["@@**  "; "@@**  "; "@@@@.."; "@@@@.."]%string)
              ltac:(vm_compute; reflexivity) ltac:(vm_compute; reflexivity))
    as (normal & resized & height & data & _ & _ & _ & _ & Hh & _ & _ & _
        & _ & _ & Hcount & Hlines).
  exists height. repeat split; assumption.
Defined.

Lemma C7_grayify_idempotent_witness :
  grayify (lib := ref_imaging) gray3x2 = gray3x2.
Proof.
  exact (proj1 (C7_grayify_idempotent (lib := ref_imaging) gray3x2 eq_refl)).
Defined.

(** ** Signs in the height computation

    Correctly rounded multiplication and division give a result whose sign
    bit is the exclusive or of the operands' sign bits, unless it is NaN. *)

Lemma binary_round_aux_pos (mx ex : Z) (lx : location) :
  sf_pos (binary_round_aux prec emax false mx ex lx).
Proof.
  unfold binary_round_aux.
  destruct (shr_fexp prec emax mx ex lx) as [mrs e'].
  destruct (shr_fexp prec emax _ e' loc_Exact) as [mrs' e''].
  destruct (shr_m mrs'); [exact eq_refl | | exact I].
  destruct (e'' <=? emax - prec); exact eq_refl.
Qed.

Lemma binary_round_pos (mx : positive) (ex : Z) :
  sf_pos (binary_round prec emax false mx ex).
Proof.
  unfold binary_round. destruct (shl_align mx ex _) as [mz ez].
  apply binary_round_aux_pos.
Qed.

Lemma binary_normalize_pos (m e : Z) :
  0 <= m -> sf_pos (binary_normalize prec emax m e false).
Proof.
  intros Hm. destruct m as [|p|p]; simpl; [exact eq_refl| |lia].
  apply binary_round_pos.
Qed.

Lemma SFmul_pos (x y : spec_float) :
  sf_pos x -> sf_pos y -> sf_pos (SFmul prec emax x y).
Proof.
  destruct x, y; simpl; intros; subst; trivial.
  apply binary_round_aux_pos.
Qed.

Lemma SFdiv_pos (x y : spec_float) :
  sf_pos x -> sf_pos y -> sf_pos (SFdiv prec emax x y).
Proof.
  destruct x, y; simpl; intros; subst; trivial.
  destruct (SFdiv_core_binary _ _ _ _ _ _) as [[mz ez] lz].
  apply binary_round_aux_pos.
Qed.

Lemma SFldexp_pos (x : spec_float) (e : Z) :
  sf_pos x -> sf_pos (SFldexp prec emax x e).
Proof.
  destruct x; simpl; intros; subst; trivial. apply binary_round_pos.
Qed.

Lemma of_uint63_pos (n : PrimInt63.int) : sf_pos (Prim2SF (of_uint63 n)).
Proof.
  rewrite of_uint63_spec. apply binary_normalize_pos.
  apply Uint63.to_Z_bounded.
Qed.

Lemma SF2Prim_pos (x : spec_float) : sf_pos x -> sf_pos (Prim2SF (SF2Prim x)).
Proof.
  destruct x as [s | s | | s m e]; intros H; simpl in H; subst;
    try exact eq_refl; try exact I.
  change (SF2Prim (S754_finite false m e))
    with (Z.ldexp (of_uint63 (Uint63Axioms.of_Z (Z.pos m))) e).
  unfold Z.ldexp. rewrite ldshiftexp_spec.
  apply SFldexp_pos, of_uint63_pos.
Qed.

Lemma float_of_int_pos (n : Z) (x : float) :
  0 <= n -> Py.float_of_int n = Ok x -> sf_pos (Prim2SF x).
Proof.
  intros Hn. unfold Py.float_of_int.
  pose proof (binary_normalize_pos n 0 Hn) as Hpos.
  destruct (binary_normalize prec emax n 0 false) eqn:E;
    intros Heq; try discriminate Heq; injection Heq as <-;
    exact (SF2Prim_pos _ Hpos).
Qed.

Lemma positive_float_pos (r : float) :
  PrimFloat.ltb 0 r = true -> sf_pos (Prim2SF r).
Proof.
  rewrite ltb_spec. change (Prim2SF 0) with (S754_zero false).
  destruct (Prim2SF r) as [s | s | | s m e]; simpl; trivial;
    destruct s; trivial; cbv; congruence.
Qed.

Lemma int_of_float_pos (x : float) (t : Z) :
  sf_pos (Prim2SF x) -> Py.int_of_float x = Ok t -> 0 <= t.
Proof.
  unfold Py.int_of_float.
  destruct (Prim2SF x) as [s | s | | s m e]; intros Hpos Heq;
    try discriminate Heq.
  - injection Heq as <-. lia.
  - simpl in Hpos. subst s.
    assert (Ha : 0 <= if 0 <=? e then Z.pos m * 2 ^ e
                      else Z.pos m / 2 ^ (- e)).
    { destruct (0 <=? e) eqn:E.
      - apply Z.leb_le in E. apply Z.mul_nonneg_nonneg; [lia|].
        apply Z.pow_nonneg. lia.
      - apply Z.leb_gt in E. apply Z.div_pos; [lia|].
        apply Z.pow_pos_nonneg; lia. }
    injection Heq as <-. exact Ha.
Qed.

Lemma truncated_height_nonneg (w h W : Z) (r : float) (t : Z) :
  0 <= w -> 0 <= h -> 0 <= W -> PrimFloat.ltb 0 r = true ->
  truncated_height (w, h) W r = Ok t -> 0 <= t.
Proof.
  intros Hw Hh HW Hr. unfold truncated_height. intros H.
  bind_inv H. bind_inv H. bind_inv H.
  apply (int_of_float_pos a1); [|exact H].
  unfold Py.int_truediv in Ha. destruct (w =? 0); [discriminate|].
  bind_inv Ha. bind_inv Ha. injection Ha as <-.
  unfold Py.float_div in Ha0. destruct (PrimFloat.eqb r 0); [discriminate|].
  injection Ha0 as <-.
  unfold Py.int_mul_float in Ha1. bind_inv Ha1. injection Ha1 as <-.
  rewrite mul_spec, div_spec, div_spec.
  apply SFmul_pos; [now apply (float_of_int_pos W)|].
  apply SFdiv_pos; [|now apply positive_float_pos].
  apply SFdiv_pos; [now apply (float_of_int_pos h) | now apply (float_of_int_pos w)].
Qed.

Lemma scaled_height_pos (w h W : Z) (r : float) (t : Z) :
  0 <= w -> 0 <= h -> 0 <= W -> PrimFloat.ltb 0 r = true ->
  truncated_height (w, h) W r = Ok t ->
  exists q ratio scaled,
    Py.int_truediv h w = Ok q
    /\ Py.float_div q r = Ok ratio
    /\ Py.int_mul_float W ratio = Ok scaled
    /\ sf_pos (Prim2SF scaled)
    /\ Py.int_of_float scaled = Ok t.
Proof.
  intros Hw Hh HW Hr. unfold truncated_height. intros H.
  bind_inv H. bind_inv H. bind_inv H.
  exists a, a0, a1. repeat split; trivial.
  unfold Py.int_truediv in Ha. destruct (w =? 0); [discriminate|].
  bind_inv Ha. bind_inv Ha. injection Ha as <-.
  unfold Py.float_div in Ha0. destruct (PrimFloat.eqb r 0); [discriminate|].
  injection Ha0 as <-.
  unfold Py.int_mul_float in Ha1. bind_inv Ha1. injection Ha1 as <-.
  rewrite mul_spec, div_spec, div_spec.
  apply SFmul_pos; [now apply (float_of_int_pos W)|].
  apply SFdiv_pos; [|now apply positive_float_pos].
  apply SFdiv_pos; [now apply (float_of_int_pos h) | now apply (float_of_int_pos w)].
Qed.

Lemma int_of_float_floor (x : float) (t : Z) :
  sf_pos (Prim2SF x) -> Py.int_of_float x = Ok t ->
  exists num den,
    float_fraction x = Some (num, den) /\ 0 < den
    /\ t * den <= num < (t + 1) * den.
Proof.
  unfold Py.int_of_float, float_fraction.
  destruct (Prim2SF x) as [s | s | | s m e]; intros Hpos Heq;
    try discriminate Heq.
  - injection Heq as <-. exists 0, 1. repeat split; lia.
  - simpl in Hpos. subst s.
    assert (Ht : t = if 0 <=? e then Z.pos m * 2 ^ e
                     else Z.pos m / 2 ^ (- e)).
    { injection Heq as <-. reflexivity. }
    clear Heq. eexists _, _. split; [reflexivity|].
    destruct (0 <=? e) eqn:E.
    + apply Z.leb_le in E.
      rewrite (Z.max_r 0 e), (Z.max_l 0 (- e)) by lia.
      change (2 ^ 0) with 1. subst t. lia.
    + apply Z.leb_gt in E.
      rewrite (Z.max_l 0 e), (Z.max_r 0 (- e)) by lia.
      change (2 ^ 0) with 1.
      assert (Hd : 0 < 2 ^ (- e)) by (apply Z.pow_pos_nonneg; lia).
      pose proof (Z.mul_div_le (Z.pos m) (2 ^ (- e)) Hd).
      pose proof (Z.mul_succ_div_gt (Z.pos m) (2 ^ (- e)) Hd).
      subst t. split; [exact Hd|]. nia.
Qed.

(** ** Resizing *)

Section Resizing.

Context {lib : Imaging}.

(** C1, amended: for a decoded image of width [w] and height [h], a target
    width [W >= 1] and a ratio [r > 0], the image the resize step returns
    has exactly [W] columns and [max 1 t] rows, where [t] is the float
    [W * (h / w / r)] with its fractional part dropped, that is the integer
    with [t <= W * (h / w / r) < t + 1], not the nearest integer. *)
Theorem C1_resize_dimensions (img : Image) (W : Z) (r : float) (out : Image)
        (Hwf : well_formed img = true) (HW : 1 <= W)
        (Hr : PrimFloat.ltb 0 r = true)
        (Hrun : resize_image img W r = Ok out) :
  exists q ratio scaled num den t,
    Py.int_truediv (snd (im_size img)) (fst (im_size img)) = Ok q
    /\ Py.float_div q r = Ok ratio
    /\ Py.int_mul_float W ratio = Ok scaled
    /\ float_fraction scaled = Some (num, den)
    /\ 0 < den
    /\ t * den <= num < (t + 1) * den
    /\ truncated_height (im_size img) W r = Ok t
    /\ 0 <= t
    /\ im_size out = (W, Z.max 1 t).
Proof.
  destruct (resize_image_inv img W r out Hwf Hrun) as (t & Ht & Ht0 & _ & Hrs).
  apply resize_size in Hrs.
  apply well_formed_iff in Hwf. destruct Hwf as (Hw & Hh & _).
  destruct (im_size img) as [w h] eqn:Es. simpl in Hw, Hh.
  destruct (scaled_height_pos w h W r t ltac:(lia) ltac:(lia) ltac:(lia)
              Hr Ht) as (q & ratio & scaled & Hq & Hratio & Hs & Hpos & Hint).
  destruct (int_of_float_floor scaled t Hpos Hint)
    as (num & den & Hfrac & Hden & Hfloor).
  exists q, ratio, scaled, num, den, t. simpl fst. simpl snd.
  repeat split; trivial; lia.
Qed.

(** C5, amended: a 2x2 all-white RGB image with width 2, ratio 1.0 and no
    threshold keeps its size 2x2 ([int(2 * (2 / 2 / 1.0))] is 2), becomes
    all-255 luminance, and the output is two rows of two spaces each. *)
Theorem C5_white_square :
  normalize_color white2x2 = Ok white2x2
  /\ resize_image white2x2 2 1%float = Ok white2x2
  /\ im_size white2x2 = (2, 2)
  /\ getdata (grayify white2x2) = [PInt 255; PInt 255; PInt 255; PInt 255]
  /\ render white2x2 2 1%float None
     = Ok ("  " ++ String "010"%char "  ")%string.
Proof.
  assert (Hwf : well_formed white2x2 = true) by reflexivity.
  assert (Hn : normalize_color white2x2 = Ok white2x2) by reflexivity.
  assert (Hr : resize_image white2x2 2 1%float = Ok white2x2).
  { unfold resize_image.
    replace (new_height_for (im_size white2x2) 2 1%float) with (Ok 2)
      by (vm_compute; reflexivity).
    apply (resize_same white2x2 Hwf). }
  assert (Hg : getdata (grayify white2x2)
               = [PInt 255; PInt 255; PInt 255; PInt 255]).
  { pose proof (convert_wf white2x2 L eq_refl Hwf) as Hgwf.
    apply well_formed_iff in Hgwf. rewrite convert_size in Hgwf by reflexivity.
    destruct Hgwf as (_ & _ & Hlen & _). simpl in Hlen.
    assert (Hi : forall i, (i < 4)%nat ->
                 nth_error (im_data (convert white2x2 L)) i = Some (PInt 255)).
    { intros i Hi. apply convert_grey; try reflexivity.
      do 4 (destruct i as [|i]; [reflexivity|]). lia. }
    unfold grayify, getdata.
    destruct (im_data (convert white2x2 L)) as [|p0 [|p1 [|p2 [|p3 [|p4 l]]]]];
      simpl in Hlen; try lia.
    pose proof (Hi 0%nat ltac:(lia)) as H0. pose proof (Hi 1%nat ltac:(lia)) as H1.
    pose proof (Hi 2%nat ltac:(lia)) as H2. pose proof (Hi 3%nat ltac:(lia)) as H3.
    simpl in H0, H1, H2, H3. congruence. }
  repeat split; trivial.
  rewrite render_unfold, Hn. simpl bind. rewrite Hr. simpl bind.
  unfold mapped_image, pixels_to_ascii. rewrite Hg. reflexivity.
Qed.

End Resizing.

Lemma C1_resize_dimensions_witness :
  exists out t,
    resize_image (lib := ref_imaging) tall4x7 5 1%float = Ok out
    /\ truncated_height (im_size tall4x7) 5 1%float = Ok t
    /\ im_size out = (5, Z.max 1 t).
Proof.
  destruct (resize_image (lib := ref_imaging) tall4x7 5 1%float)
    as [out | e] eqn:E; [|vm_compute in E; discriminate E].
  destruct (C1_resize_dimensions (lib := ref_imaging) tall4x7 5 1%float out
              ltac:(vm_compute; reflexivity) ltac:(lia)
              ltac:(vm_compute; reflexivity) E)
    as (q & ratio & scaled & num & den & t & _ & _ & _ & _ & _ & _
        & Ht & _ & Hsize).
  exists out, t. repeat split; assumption.
Defined.

(** C1 as stated fails: for a 4x7 image, width 5 and ratio 1.0 the code
    gives 8 rows ([int(8.75)]), the rounded formula gives 9. *)
Lemma C1_counterexample :
  ~ (forall out,
        resize_image (lib := ref_imaging) tall4x7 5 1%float = Ok out ->
        exists new_height,
          spec_new_height (im_size tall4x7) 5 1%float = Ok new_height
          /\ im_size out = (5, new_height)).
Proof.
  intros Hclaim.
  destruct (resize_image (lib := ref_imaging) tall4x7 5 1%float) as [out | e] eqn:E;
    [|vm_compute in E; discriminate].
  destruct (Hclaim out eq_refl) as (H & Hspec & Hsize).
  vm_compute in Hspec. injection Hspec as <-.
  vm_compute in E. injection E as <-. discriminate Hsize.
Qed.

(** C5 as stated fails: the 2x2 white image is not resized to 2x1 and the
    output is not a single row. *)
Lemma C5_counterexample :
  ~ (exists resized,
        resize_image (lib := ref_imaging) white2x2 2 1%float = Ok resized
        /\ im_size resized = (2, 1)
        /\ render white2x2 2 1%float None = Ok "  "%string).
Proof.
  intros (resized & Hr & Hsize & Hout). vm_compute in Hout. discriminate.
Qed.

(** ** Unvalidated configuration *)

Lemma int_truediv_raises (a b : Z) (e : exn) :
  Py.int_truediv a b = Raise e -> e = ZeroDivisionError \/ e = OverflowError.
Proof.
  unfold Py.int_truediv, Py.float_of_int. destruct (b =? 0).
  - intros [= <-]. now left.
  - destruct (binary_normalize prec emax a 0 false);
      destruct (binary_normalize prec emax b 0 false); simpl;
      intros H; try discriminate H; injection H as <-; now right.
Qed.

Section Configuration.

Context {lib : Imaging}.

Lemma render_nonpositive_width (img : Image) (W : Z) (r : float)
      (threshold : option Z) :
  well_formed img = true ->
  W <= 0 ->
  exists normal e,
    normalize_color img = Ok normal
    /\ resize_image normal W r = Raise e
    /\ render img W r threshold = Raise e
    /\ (new_height_for (im_size normal) W r = Raise e
        \/ exists H, new_height_for (im_size normal) W r = Ok H
                     /\ resize normal (W, H) = Raise e
                     /\ e = if c_int W && c_int H then ValueError
                            else OverflowError).
Proof.
  intros Hwf HW.
  destruct (normalize_color_cases img) as (n & Hnorm & _ & _ & _ & _ & Hn).
  destruct (Hn Hwf) as [Hwfn _]. exists n.
  destruct (new_height_for (im_size n) W r) as [H | e] eqn:EH.
  - exists (if c_int W && c_int H then ValueError else OverflowError).
    assert (Hlib : resize n (W, H)
                   = Raise (if c_int W && c_int H then ValueError
                            else OverflowError))
      by (apply resize_nonpos; [exact Hwfn | lia]).
    assert (Hrs : resize_image n W r
                  = Raise (if c_int W && c_int H then ValueError
                           else OverflowError)).
    { unfold resize_image. rewrite EH. simpl bind. exact Hlib. }
    repeat split; trivial.
    + rewrite render_unfold, Hnorm. simpl bind. now rewrite Hrs.
    + right. exists H. auto.
  - exists e.
    assert (Hrs : resize_image n W r = Raise e).
    { unfold resize_image. now rewrite EH. }
    repeat split; trivial.
    + rewrite render_unfold, Hnorm. simpl bind. now rewrite Hrs.
    + now left.
Qed.

Lemma render_zero_ratio (img : Image) (W : Z) (r : float)
      (threshold : option Z) :
  PrimFloat.eqb r 0 = true ->
  exists normal e,
    normalize_color img = Ok normal
    /\ new_height_for (im_size normal) W r = Raise e
    /\ (e = ZeroDivisionError \/ e = OverflowError)
    /\ resize_image normal W r = Raise e
    /\ render img W r threshold = Raise e.
Proof.
  intros Hr.
  destruct (normalize_color_cases img) as (n & Hnorm & _). exists n.
  assert (Hh : exists e, new_height_for (im_size n) W r = Raise e
                         /\ (e = ZeroDivisionError \/ e = OverflowError)).
  { unfold new_height_for. destruct (im_size n) as [w h].
    destruct (Py.int_truediv h w) as [q | e] eqn:E; simpl bind.
    - exists ZeroDivisionError. unfold Py.float_div. rewrite Hr. auto.
    - exists e. split; [reflexivity|]. now apply (int_truediv_raises h w). }
  destruct Hh as (e & Hh & He). exists e.
  assert (Hrs : resize_image n W r = Raise e).
  { unfold resize_image. now rewrite Hh. }
  repeat split; trivial.
  rewrite render_unfold, Hnorm. simpl bind. now rewrite Hrs.
Qed.

Lemma render_threshold_irrelevant (img : Image) (W : Z) (r : float)
      (t1 t2 : option Z) (out : string) :
  well_formed img = true -> render img W r t1 = Ok out ->
  exists out', render img W r t2 = Ok out'.
Proof.
  intros Hwf Hrun.
  destruct (render_stages img W r t1 out Hwf Hrun)
    as [normal resized height Hn Hr _ _ _ _ _ _ _ _].
  destruct (resized_stages img normal resized W r t2 Hwf Hn Hr) as (out' & Ho & _).
  eauto.
Qed.

Lemma render_constant_threshold (img : Image) (W : Z) (r : float) (t : Z)
      (out : string) (level : Z) :
  well_formed img = true ->
  (forall v, 0 <= v <= 255 -> binarize t v = level) ->
  render img W r (Some t) = Ok out ->
  exists data,
    out = String.concat newline (rows_of W data)
    /\ Forall (fun c => c = ramp_char level) (list_ascii_of_string data).
Proof.
  intros Hwf Hlevel Hrun.
  destruct (render_stages img W r (Some t) out Hwf Hrun)
    as [normal resized height Hn Hr HW HH Hsize Hrwf Hg Hgs Hdata Hout].
  eexists. split; [exact Hout|].
  rewrite list_ascii_of_string_of_list_ascii. apply Forall_map.
  simpl mapped_image. unfold getdata. simpl im_data. apply Forall_map.
  eapply Forall_impl; [|apply (grayscale_pixels _ (grayify_grayscale _ Hrwf))].
  intros px (v & -> & Hv). simpl. now rewrite Hlevel.
Qed.

(** C9, amended: nothing is validated up front: whatever the configuration,
    the image is fetched first, and a failed fetch is reported as such.  A
    width below 1 and a zero ratio surface only after color normalization,
    as the exception the resize step raises (from the height arithmetic, or
    from the library's resize: [ValueError], or [OverflowError] for a
    dimension that does not fit a C [int]); a threshold outside 0..255 is
    tolerated: it never turns a successful run into a failure, a threshold
    of 255 or more renders every cell as ['@'] and a negative one renders
    every cell as a space. *)
Theorem C9_unvalidated_configuration (img : Image) (W : Z) (r : float)
        (threshold : option Z) (Hwf : well_formed img = true) :
  (forall (net : Fetcher) url out msg,
      load_image url = inl msg ->
      generate_ascii url W r threshold out
      = (Ok None, out ++ ["Error loading image: " ++ msg]%string))
  /\ (W <= 0 ->
      exists normal e,
        normalize_color img = Ok normal
        /\ resize_image normal W r = Raise e
        /\ render img W r threshold = Raise e
        /\ (new_height_for (im_size normal) W r = Raise e
            \/ exists H, new_height_for (im_size normal) W r = Ok H
                         /\ resize normal (W, H) = Raise e
                         /\ e = if c_int W && c_int H then ValueError
                                else OverflowError))
  /\ (PrimFloat.eqb r 0 = true ->
      exists normal e,
        normalize_color img = Ok normal
        /\ new_height_for (im_size normal) W r = Raise e
        /\ (e = ZeroDivisionError \/ e = OverflowError)
        /\ resize_image normal W r = Raise e
        /\ render img W r threshold = Raise e)
  /\ ((exists out, render img W r threshold = Ok out)
      <-> (exists out, render img W r None = Ok out))
  /\ (forall t out, 255 <= t -> render img W r (Some t) = Ok out ->
        exists data,
          out = String.concat (String "010"%char EmptyString) (rows_of W data)
          /\ Forall (fun c => c = "@"%char) (list_ascii_of_string data))
  /\ (forall t out, t < 0 -> render img W r (Some t) = Ok out ->
        exists data,
          out = String.concat (String "010"%char EmptyString) (rows_of W data)
          /\ Forall (fun c => c = " "%char) (list_ascii_of_string data)).
Proof.
  split.
  { intros net url out msg Hload. unfold generate_ascii. now rewrite Hload. }
  split; [now apply render_nonpositive_width|].
  split; [apply render_zero_ratio|].
  split; [|split].
  - split; intros (out & Hout);
      eapply render_threshold_irrelevant; eassumption.
  - intros t out Ht Hrun.
    apply (render_constant_threshold img W r t out 0 Hwf); [|exact Hrun].
    intros v Hv. unfold binarize.
    destruct (Z.ltb_spec t v); [lia | reflexivity].
  - intros t out Ht Hrun.
    apply (render_constant_threshold img W r t out 255 Hwf); [|exact Hrun].
    intros v Hv. unfold binarize.
    destruct (Z.ltb_spec t v); [reflexivity | lia].
Qed.

End Configuration.

Lemma C9_unvalidated_configuration_witness :
  (exists normal,
      normalize_color (lib := ref_imaging) white2x2 = Ok normal
      /\ resize_image normal (-2) 1%float = Raise ValueError
      /\ render white2x2 (-2) 1%float (Some 300) = Raise ValueError)
  /\ exists data,
       ("@@" ++ String "010"%char "@@")%string
       = String.concat (String "010"%char EmptyString) (rows_of 2 data)
       /\ Forall (fun c => c = "@"%char) (list_ascii_of_string data).
Proof.
  split.
  - destruct (C9_unvalidated_configuration (lib := ref_imaging) white2x2
                (-2) 1%float (Some 300) eq_refl) as (_ & Hwidth & _).
    destruct (Hwidth ltac:(lia)) as (normal & e & Hn & Hrs & Hrun & _).
    exists normal.
    assert (He : e = ValueError).
    { vm_compute in Hrun. now injection Hrun as <-. }
    subst e. repeat split; assumption.
  - destruct (C9_unvalidated_configuration (lib := ref_imaging) white2x2
                2 1%float (Some 300) eq_refl)
      as (_ & _ & _ & _ & Hdark & _).
    exact (Hdark 300 _ ltac:(lia) ltac:(vm_compute; reflexivity)).
Defined.

(** C9 as stated fails: a threshold of 300 does not surface as a failure,
    the picture is rendered. *)
Lemma C9_counterexample :
  ~ (exists e, render (lib := ref_imaging) white2x2 2 1%float (Some 300)
               = Raise e).
Proof. intros (e & He). vm_compute in He. discriminate. Qed.

(** ** Color normalization *)

Lemma image_eq (a b : Image) :
  im_mode a = im_mode b -> im_size a = im_size b ->
  im_data a = im_data b -> im_palette a = im_palette b -> a = b.
Proof. destruct a, b. simpl. congruence. Qed.

Lemma alpha_band_pixel (m : mode) (px : pixel) :
  m = RGBA \/ m = LA -> pixel_ok m px = true ->
  band_of (band_count m - 1) px = PInt (alpha_of px).
Proof.
  intros Hm Hok. destruct px as [v | bs | x].
  - destruct Hm as [-> | ->]; discriminate Hok.
  - unfold pixel_ok in Hok. rewrite !andb_true_iff in Hok.
    destruct Hok as [_ [[_ Hlen] _]].
    destruct Hm as [-> | ->]; simpl in Hlen;
      repeat (destruct bs as [|? bs]; try discriminate Hlen); reflexivity.
  - destruct Hm as [-> | ->]; discriminate Hok.
Qed.

Section Normalization.

Context {lib : Imaging}.

Lemma normalize_alpha (img : Image) :
  im_mode img = RGBA \/ im_mode img = LA ->
  normalize_color img = Ok (composite img).
Proof.
  intros [Hm | Hm]; unfold normalize_color, composite, alpha_band, split;
    rewrite Hm; simpl; rewrite ?Hm; reflexivity.
Qed.

Lemma normalize_palette (img : Image) :
  im_mode img = P ->
  normalize_color img = Ok (composite (convert img RGBA)).
Proof.
  intros Hm. rewrite <- (normalize_alpha (convert img RGBA))
    by (left; now apply convert_mode).
  unfold normalize_color. rewrite Hm, !convert_mode by reflexivity. simpl.
  rewrite !convert_mode by reflexivity. reflexivity.
Qed.

Lemma composite_pixel (img : Image) (i : nat) (px : pixel) :
  im_mode img = RGBA \/ im_mode img = LA ->
  well_formed img = true ->
  nth_error (im_data img) i = Some px ->
  (alpha_of px = 0 ->
   nth_error (im_data (composite img)) i = Some (PTuple [255; 255; 255]))
  /\ (alpha_of px = 255 ->
      nth_error (im_data (composite img)) i = Some (rgb_of px)).
Proof.
  intros Hm Hwf Ei. apply well_formed_iff in Hwf.
  destruct Hwf as (Hw & Hh & Hlen & Hall).
  assert (Hi : (i < Z.to_nat (fst (im_size img) * snd (im_size img)))%nat).
  { assert (i < List.length (im_data img))%nat; [|lia].
    apply nth_error_Some. congruence. }
  assert (Hbg : nth_error (im_data (Image_new RGB (im_size img) white)) i
                = Some white).
  { simpl. now apply nth_error_repeat. }
  assert (Hmask : nth_error (im_data (alpha_band img)) i
                  = Some (PInt (alpha_of px))).
  { simpl. rewrite nth_error_map, Ei. simpl. f_equal.
    apply alpha_band_pixel; [exact Hm|].
    rewrite Forall_forall in Hall. apply Hall.
    now apply nth_error_In with i. }
  unfold composite. split; intros Ha; rewrite Ha in Hmask.
  - now apply paste_transparent.
  - now apply paste_opaque with white.
Qed.

Lemma composite_binary_alpha (img : Image) :
  im_mode img = RGBA \/ im_mode img = LA ->
  well_formed img = true -> binary_alpha img ->
  composite img = flatten_white img.
Proof.
  intros Hm Hwf Hbin. apply image_eq.
  - unfold composite. now rewrite paste_mode.
  - unfold composite. now rewrite paste_size.
  - apply nth_error_ext. intros i. simpl im_data at 2.
    rewrite nth_error_map.
    destruct (nth_error (im_data img) i) as [px|] eqn:Ei; simpl.
    + destruct (composite_pixel img i px Hm Hwf Ei) as [H0 H255].
      unfold binary_alpha in Hbin. rewrite Forall_forall in Hbin.
      destruct (Hbin px (nth_error_In _ _ Ei)) as [Ha | Ha]; rewrite Ha; auto.
    + apply nth_error_None. unfold composite. rewrite paste_length. simpl.
      rewrite repeat_length. apply nth_error_None in Ei.
      apply well_formed_iff in Hwf. lia.
  - unfold composite. now rewrite paste_palette.
Qed.

Lemma normalize_composite (img : Image) :
  normalize_color (composite img) = Ok (composite img).
Proof.
  unfold normalize_color.
  assert (Hm : im_mode (composite img) = RGB) by apply paste_mode.
  rewrite Hm. simpl. rewrite ?Hm. reflexivity.
Qed.

(** C6: a palette image is converted to RGBA; an image with an alpha band
    (RGBA or LA) is composited over an opaque white background of its size
    with that band as the mask, so its fully transparent pixels become pure
    white and it renders exactly as the flattened image does; when every
    pixel is fully transparent or fully opaque the flattened image is the one
    obtained by writing white over the transparent pixels by hand. *)
Theorem C6_alpha_over_white (img : Image) (W : Z) (r : float)
        (threshold : option Z)
        (Hmode : im_mode img = RGBA \/ im_mode img = LA)
        (Hwf : well_formed img = true) :
  normalize_color img =
    Ok (paste (Image_new RGB (im_size img) (PTuple [255; 255; 255])) img
              (alpha_band img))
  /\ im_mode (composite img) = RGB
  /\ im_size (composite img) = im_size img
  /\ (forall i px, nth_error (im_data img) i = Some px -> alpha_of px = 0 ->
        nth_error (im_data (composite img)) i
        = Some (PTuple [255; 255; 255]))
  /\ render img W r threshold = render (composite img) W r threshold
  /\ (binary_alpha img ->
      composite img = flatten_white img
      /\ render img W r threshold = render (flatten_white img) W r threshold)
  /\ (forall p, im_mode p = P ->
        normalize_color p = normalize_color (convert p RGBA)
        /\ im_mode (convert p RGBA) = RGBA)
  /\ (forall opaque, im_mode opaque = RGB \/ im_mode opaque = L ->
        normalize_color opaque = Ok opaque).
Proof.
  pose proof (normalize_alpha img Hmode) as Hn.
  assert (Hrender : render img W r threshold
                    = render (composite img) W r threshold).
  { now rewrite !render_unfold, Hn, normalize_composite. }
  split; [exact Hn|].
  split; [unfold composite; now rewrite paste_mode|].
  split; [unfold composite; now rewrite paste_size|].
  split; [|split; [exact Hrender|split; [|split]]].
  - intros i px Ei Ha. now apply (composite_pixel img i px Hmode Hwf Ei).
  - intros Hbin.
    pose proof (composite_binary_alpha img Hmode Hwf Hbin) as Hc.
    split; [exact Hc | now rewrite <- Hc].
  - intros p Hp. split; [|now apply convert_mode].
    rewrite (normalize_palette p Hp).
    symmetry. apply normalize_alpha. left. now apply convert_mode.
  - intros opaque [Hm | Hm]; unfold normalize_color; rewrite Hm;
      simpl; rewrite ?Hm; reflexivity.
Qed.

End Normalization.

Lemma C6_alpha_over_white_witness :
  render (lib := ref_imaging) rgba2x2 2 1%float None
  = render (lib := ref_imaging)
      (mkImage RGB (2, 2)
         [PTuple [255; 255; 255]; PTuple [0; 0; 0];
          PTuple [200; 100; 50]; PTuple [255; 255; 255]] [])
      2 1%float None.
Proof.
  assert (Hbin : binary_alpha rgba2x2).
  { unfold binary_alpha. simpl.
    repeat (apply Forall_cons; [simpl; auto|]). apply Forall_nil. }
  destruct (C6_alpha_over_white (lib := ref_imaging) rgba2x2 2 1%float None
              (or_introl eq_refl) eq_refl)
    as (_ & _ & _ & _ & _ & Hflat & _).
  exact (proj2 (Hflat Hbin)).
Defined.

(** ** Loading failures *)

Section Loading.

Context {lib : Imaging} {net : Fetcher}.

Lemma load_failure_iff (url e : string) :
  load_failure url e <-> load_image url = inl e.
Proof.
  unfold load_image, raise_for_status. split.
  - intros [Hget | resp Hget Hst He | resp Hget Hst Hopen]; rewrite Hget.
    + reflexivity.
    + replace ((400 <=? status_code resp) && (status_code resp <? 600))
        with true by (symmetry; apply andb_true_iff; split;
                      [apply Z.leb_le | apply Z.ltb_lt]; lia).
      now subst.
    + replace ((400 <=? status_code resp) && (status_code resp <? 600))
        with false; [exact Hopen|].
      symmetry. apply not_true_is_false. intros Hb.
      apply andb_true_iff in Hb. destruct Hb as [H1 H2].
      apply Z.leb_le in H1. apply Z.ltb_lt in H2. lia.
  - destruct (requests_get url _) as [e' | resp] eqn:Hget.
    + intros [= ->]. now apply connection_failure.
    + destruct ((400 <=? status_code resp) && (status_code resp <? 600)) eqn:Hb.
      * intros [= <-]. apply andb_true_iff in Hb. destruct Hb as [H1 H2].
        apply Z.leb_le in H1. apply Z.ltb_lt in H2.
        now apply error_status with resp.
      * intros Hopen. apply decode_failure with resp; trivial.
        intros [H1 H2]. apply Z.leb_le in H1. apply Z.ltb_lt in H2.
        now rewrite H1, H2 in Hb.
Qed.

(** The failures the [try] does catch: when the request fails, the status
    is an error or [Image.open] rejects the body, [generate_ascii] prints
    ["Error loading image: <message>"], returns no result and raises
    nothing; the script then prints nothing more. *)
Lemma load_failure_is_reported (url : string) (width : Z) (ratio : float)
      (threshold : option Z) (out : stdout) (e : string) :
  load_failure url e ->
  generate_ascii url width ratio threshold out
  = (Ok None, out ++ ["Error loading image: " ++ e]%string)
  /\ main (mkArgs url width ratio threshold) out
     = (Ok tt, out ++ ["Error loading image: " ++ e]%string).
Proof.
  intros Hfail. apply load_failure_iff in Hfail.
  assert (Hgen : generate_ascii url width ratio threshold out
                 = (Ok None, out ++ ["Error loading image: " ++ e]%string)).
  { unfold generate_ascii. now rewrite Hfail. }
  split; [exact Hgen|].
  unfold main. simpl. now rewrite Hgen.
Qed.

(** C8 does not hold of the code: a body that [Image.open] identifies but
    whose pixel data do not decode passes the [try]; the decoding error is
    raised by a later step, outside it (or an arithmetic error of the height
    computation comes first), so nothing is printed and an exception leaves
    [generate_ascii] and the script. *)
Theorem C8_undecodable_body_escapes (url : string) (width : Z) (ratio : float)
        (threshold : option Z) (out : stdout)
        (m : mode) (size : Z * Z) (e : exn)
        (Hload : load_image url = inr (Undecodable m size e)) :
  exists raised,
    generate_ascii url width ratio threshold out = (Raise raised, out)
    /\ main (mkArgs url width ratio threshold) out = (Raise raised, out)
    /\ (raised = e \/ new_height_for size width ratio = Raise raised).
Proof.
  assert (Hrender : exists raised,
             render_opened (Undecodable m size e) width ratio threshold
             = Raise raised
             /\ (raised = e \/ new_height_for size width ratio = Raise raised)).
  { simpl. destruct (mode_eqb m P || mode_eqb m RGBA || mode_eqb m LA).
    - exists e. auto.
    - destruct (new_height_for size width ratio) as [H | e'] eqn:EH.
      + exists e. auto.
      + exists e'. auto. }
  destruct Hrender as (raised & Hrender & Hwhich). exists raised.
  assert (Hgen : generate_ascii url width ratio threshold out
                 = (Raise raised, out)).
  { unfold generate_ascii. now rewrite Hload, Hrender. }
  repeat split; trivial. unfold main. simpl. now rewrite Hgen.
Qed.

End Loading.

Lemma load_failure_is_reported_example :
  main (lib := ref_imaging) (net := sample_net)
       (mkArgs "https://example.org/missing.png" 80 2%float None) []
  = (Ok tt, ["Error loading image: 404 Client Error: Not Found"]%string).
Proof.
  refine (proj2 (load_failure_is_reported (lib := ref_imaging)
                   (net := sample_net) "https://example.org/missing.png"
                   80 2%float None [] "404 Client Error: Not Found" _)).
  apply error_status with (mkResponse 404 []);
    [reflexivity | simpl; lia | reflexivity].
Qed.

Lemma C8_undecodable_body_escapes_witness :
  main (lib := ref_imaging) (net := truncated_net)
       (mkArgs "https://example.org/cut.png" 80 2%float None) []
  = (Raise OSError, []).
Proof.
  destruct (C8_undecodable_body_escapes (lib := ref_imaging)
              (net := truncated_net) "https://example.org/cut.png"
              80 2%float None [] RGB (2, 2) OSError eq_refl)
    as (raised & _ & Hmain & _).
  assert (Hraised : raised = OSError).
  { vm_compute in Hmain. now injection Hmain as <-. }
  now subst raised.
Defined.

(** * Further properties of the program *)

(** ** The ramp *)

(** X1: the ramp is monotone: of two luminances in 0..255 the lighter one
    never gets an earlier (darker) ramp position. *)
Theorem ramp_index_monotone (p q : Z)
        (Hp : 0 <= p) (Hpq : p <= q) (Hq : q <= 255) :
  exists i j, ramp_index p = Ok i /\ ramp_index q = Ok j /\ i <= j.
Proof.
  exists (p * 9 / 255), (q * 9 / 255).
  repeat split; try (apply ramp_index_floor; lia).
  apply Z.div_le_mono; lia.
Qed.

Lemma ramp_index_monotone_witness :
  exists i j, ramp_index 100 = Ok i /\ ramp_index 200 = Ok j /\ i <= j.
Proof.
  exact (ramp_index_monotone 100 200 ltac:(lia) ltac:(lia) ltac:(lia)).
Defined.

(** X2: a luminance [p] in 0..255 gets ramp position [i] exactly when
    [255 * i <= 9 * p < 255 * (i + 1)]; so only 255 is drawn as a space and
    exactly 0..28 are drawn as ['@']. *)
Theorem ramp_index_buckets (p i : Z) (Hp : 0 <= p <= 255) :
  (ramp_index p = Ok i <-> 255 * i <= 9 * p < 255 * (i + 1))
  /\ (ascii_of_pixel (PInt p) = Ok space <-> p = 255)
  /\ (ascii_of_pixel (PInt p) = Ok at_sign <-> p <= 28).
Proof.
  rewrite (ramp_index_floor p Hp), (ascii_of_pixel_ramp p Hp).
  assert (Hdiv : forall k, p * 9 / 255 = k <-> 255 * k <= 9 * p < 255 * (k + 1)).
  { intros k. split.
    - intros <-. pose proof (Z.mul_div_le (p * 9) 255 ltac:(lia)).
      pose proof (Z.mul_succ_div_gt (p * 9) 255 ltac:(lia)). lia.
    - intros Hk. symmetry. apply Z.div_unique with (r := p * 9 - 255 * k); lia. }
  assert (Hchar : forall k c,
             0 <= k <= 9 ->
             nth (Z.to_nat k) (list_ascii_of_string ASCII_CHARS) " "%char = c ->
             (ramp_char p = c <-> p * 9 / 255 = k)).
  { intros k c Hk Hc. unfold ramp_char.
    change (Z.of_nat (String.length ASCII_CHARS) - 1) with 9.
    pose proof (floor_index_range p Hp) as Hi.
    split; [|intros ->; exact Hc].
    intros Hj. rewrite <- Hc in Hj.
    assert (Hnodup : NoDup (list_ascii_of_string ASCII_CHARS)).
    { simpl. repeat (constructor; [simpl; intuition discriminate|]).
      constructor. }
    apply Z2Nat.inj; try lia.
    apply (proj1 (NoDup_nth _ " "%char) Hnodup); trivial;
      change (List.length (list_ascii_of_string ASCII_CHARS)) with 10%nat; lia. }
  split; [|split].
  - split; [intros [= <-]; now apply Hdiv | intros H; f_equal; now apply Hdiv].
  - split.
    + intros [= Hs]. apply (Hchar 9 space) in Hs; [|lia|reflexivity].
      apply Hdiv in Hs. lia.
    + intros ->. reflexivity.
  - split.
    + intros [= Hs]. apply (Hchar 0 at_sign) in Hs; [|lia|reflexivity].
      apply Hdiv in Hs. lia.
    + intros Hle. f_equal. apply (Hchar 0 at_sign); [lia|reflexivity|].
      apply Hdiv. lia.
Qed.

Lemma ramp_index_buckets_witness :
  ramp_index 28 = Ok 0 <-> 255 * 0 <= 9 * 28 < 255 * (0 + 1).
Proof. exact (proj1 (ramp_index_buckets 28 0 ltac:(lia))). Defined.

(** ** [pixels_to_ascii] on arbitrary images *)

Lemma mapM_length {A B : Type} (f : A -> result B) (l : list A) (l' : list B) :
  mapM f l = Ok l' -> List.length l' = List.length l.
Proof.
  revert l'. induction l as [|a l IH]; intros l' H; simpl in H.
  - injection H as <-. reflexivity.
  - bind_inv H. bind_inv H. injection H as <-. simpl. f_equal. now apply IH.
Qed.

Lemma mapM_Forall {A B : Type} (f : A -> result B) (l : list A) (l' : list B) :
  mapM f l = Ok l' -> Forall (fun a => exists b, f a = Ok b) l.
Proof.
  revert l'. induction l as [|a l IH]; intros l' H; simpl in H; constructor.
  - bind_inv H. eauto.
  - bind_inv H. bind_inv H. eapply IH. eassumption.
Qed.

Lemma str_index_in_ramp (i : Z) (c : ascii) :
  Py.str_index ASCII_CHARS i = Ok c -> -10 <= i <= 9.
Proof.
  unfold Py.str_index.
  change (Z.of_nat (String.length ASCII_CHARS)) with 10.
  intros Hc.
  destruct (i <? 0) eqn:E;
    [apply Z.ltb_lt in E | apply Z.ltb_ge in E];
    match type of Hc with
    | (if ?b then _ else _) = _ =>
        destruct b eqn:Eb; [|discriminate Hc];
        apply andb_true_iff in Eb; destruct Eb as [E1 E2];
        apply Z.leb_le in E1; apply Z.ltb_lt in E2; lia
    end.
Qed.

(** X3: when [pixels_to_ascii] returns, the string has exactly one character
    per pixel; no pixel was a tuple, and for every pixel, integer or float,
    the index expression fell inside the ramp (negative positions count
    from its end). *)
Theorem pixels_to_ascii_one_char_per_pixel (img : Image) (s : string)
        (Hrun : pixels_to_ascii img = Ok s) :
  String.length s = List.length (getdata img)
  /\ Forall (fun px =>
               (forall bs, px <> PTuple bs)
               /\ (forall v, px = PInt v ->
                   exists i, ramp_index v = Ok i /\ -10 <= i <= 9)
               /\ (forall x, px = PFloat x ->
                   exists i, ramp_index_float x = Ok i /\ -10 <= i <= 9))
            (getdata img).
Proof.
  unfold pixels_to_ascii in Hrun. bind_inv Hrun. injection Hrun as <-.
  split.
  - rewrite length_string_of_list. now apply mapM_length in Ha.
  - eapply Forall_impl; [|apply (mapM_Forall _ _ _ Ha)].
    intros [v | bs | x] [c Hc]; simpl in Hc; [|discriminate|];
      bind_inv Hc; (split; [discriminate|split]);
      try discriminate.
    + intros v' [= <-]. exists a0. split; [assumption|].
      now apply str_index_in_ramp with c.
    + intros x' [= <-]. exists a0. split; [assumption|].
      now apply str_index_in_ramp with c.
Qed.

Lemma pixels_to_ascii_one_char_per_pixel_witness :
  String.length "@* @@."%string = List.length (getdata gray3x2).
Proof.
  exact (proj1 (pixels_to_ascii_one_char_per_pixel gray3x2 "@* @@."%string
                  ltac:(vm_compute; reflexivity))).
Defined.

(** X4: [pixels_to_ascii] needs a single-band image: on a decoded image with
    several bands (LA, RGB or RGBA, that is when the grayscale step is
    skipped) it raises [TypeError]. *)
Theorem pixels_to_ascii_rejects_color (img : Image)
        (Hwf : well_formed img = true)
        (Hmode : im_mode img = LA \/ im_mode img = RGB \/ im_mode img = RGBA) :
  pixels_to_ascii img = Raise TypeError.
Proof.
  apply well_formed_iff in Hwf. destruct Hwf as (Hw & Hh & Hlen & Hall).
  unfold pixels_to_ascii, getdata.
  destruct (im_data img) as [|px rest].
  - simpl in Hlen. nia.
  - inversion Hall as [|? ? Hpx _]; subst.
    destruct px as [v | bs | x]; [|reflexivity|];
      destruct Hmode as [Hm | [Hm | Hm]]; rewrite Hm in Hpx; discriminate Hpx.
Qed.

Lemma pixels_to_ascii_rejects_color_witness :
  pixels_to_ascii white2x2 = Raise TypeError.
Proof.
  exact (pixels_to_ascii_rejects_color white2x2 eq_refl
           (or_intror (or_introl eq_refl))).
Defined.

(** ** The row split in general *)

Lemma chunks_nth {A : Type} (w : nat) (fuel : nat) (l : list A) (i : nat) :
  (0 < w)%nat -> (List.length l <= fuel)%nat -> (i * w < List.length l)%nat ->
  nth_error (chunks fuel w l) i = Some (firstn w (skipn (i * w) l)).
Proof.
  intros Hw. revert l i. induction fuel as [|fuel IH]; intros l i Hf Hi.
  - lia.
  - assert (Hne : l <> []) by (intros ->; simpl in Hi; lia).
    rewrite (chunks_step w fuel l Hne). destruct i as [|i]; simpl nth_error.
    + reflexivity.
    + rewrite IH.
      * rewrite skipn_skipn. do 3 f_equal. lia.
      * rewrite length_skipn. lia.
      * rewrite length_skipn. simpl in Hi. lia.
Qed.

Lemma chunks_count {A : Type} (w : nat) (fuel : nat) (l : list A) :
  (0 < w)%nat -> (List.length l <= fuel)%nat ->
  Z.of_nat (List.length (chunks fuel w l))
  = row_count (Z.of_nat (List.length l)) (Z.of_nat w).
Proof.
  intros Hw. unfold row_count. revert l.
  induction fuel as [|fuel IH]; intros l Hf.
  - destruct l; [|simpl in Hf; lia]. simpl. symmetry. apply Z.div_small. lia.
  - destruct l as [|a l'] eqn:El.
    + simpl. symmetry. apply Z.div_small. lia.
    + rewrite <- El in *. assert (Hne : l <> []) by (rewrite El; discriminate).
      rewrite (chunks_step w fuel l Hne). simpl List.length.
      rewrite Nat2Z.inj_succ, IH by (rewrite length_skipn; lia).
      rewrite length_skipn.
      assert (Hlen : (0 < List.length l)%nat) by (rewrite El; simpl; lia).
      destruct (Nat.le_gt_cases w (List.length l)) as [Hge | Hlt].
      * rewrite Nat2Z.inj_sub by lia.
        replace (Z.of_nat (List.length l) + Z.of_nat w - 1)
          with (Z.of_nat (List.length l) - Z.of_nat w + Z.of_nat w - 1
                + 1 * Z.of_nat w) by lia.
        rewrite Z.div_add by lia. lia.
      * replace (List.length l - w)%nat with 0%nat by lia.
        rewrite (Z.div_small (Z.of_nat 0 + Z.of_nat w - 1)) by lia.
        apply Z.div_unique with (r := Z.of_nat (List.length l) - 1); lia.
Qed.

Lemma chunks_concat {A : Type} (w : nat) (fuel : nat) (l : list A) :
  (0 < w)%nat -> (List.length l <= fuel)%nat ->
  List.concat (chunks fuel w l) = l.
Proof.
  intros Hw. revert l. induction fuel as [|fuel IH]; intros l Hf.
  - destruct l; [reflexivity | simpl in Hf; lia].
  - destruct l as [|a l'] eqn:El; [reflexivity|].
    rewrite <- El in *. assert (Hne : l <> []) by (rewrite El; discriminate).
    rewrite (chunks_step w fuel l Hne). simpl List.concat.
    rewrite IH; [apply firstn_skipn|].
    rewrite length_skipn.
    assert (0 < List.length l)%nat by (rewrite El; simpl; lia). lia.
Qed.

Lemma list_ascii_append (a b : string) :
  list_ascii_of_string (a ++ b) =
  (list_ascii_of_string a ++ list_ascii_of_string b)%list.
Proof. induction a as [|c a IH]; simpl; [reflexivity | now rewrite IH]. Qed.

Lemma list_ascii_concat_empty (rows : list string) :
  list_ascii_of_string (String.concat "" rows) =
  List.concat (map list_ascii_of_string rows).
Proof.
  induction rows as [|x rows IH]; [reflexivity|].
  destruct rows as [|y rows].
  - simpl. now rewrite app_nil_r.
  - change (String.concat "" (x :: y :: rows))
      with (x ++ ("" ++ String.concat "" (y :: rows)))%string.
    rewrite list_ascii_append, (list_ascii_append ""), IH. reflexivity.
Qed.

(** X5: for a positive width the rows of [join_rows] are the consecutive
    slices of [width] characters of the data: there are
    [ceil(length / width)] of them, and row [i] is
    [data[i * width : (i + 1) * width]] (the last one is shorter when the
    width does not divide the length). *)
Theorem join_rows_slices (data : string) (width : Z) (Hwidth : 0 < width) :
  join_rows data width = Ok (String.concat newline (rows_of width data))
  /\ Z.of_nat (List.length (rows_of width data))
     = row_count (Z.of_nat (String.length data)) width
  /\ (forall i,
        Z.of_nat i * width < Z.of_nat (String.length data) ->
        nth_error (rows_of width data) i
        = Some (substring (i * Z.to_nat width) (Z.to_nat width) data)).
Proof.
  split; [now apply join_rows_chunks|]. unfold rows_of. split.
  - rewrite length_map, chunks_count, length_list_ascii, Z2Nat.id; trivial;
      try lia. rewrite length_list_ascii. lia.
  - intros i Hi. rewrite nth_error_map, chunks_nth.
    + simpl. f_equal.
      rewrite <- (string_of_list_ascii_of_string (substring _ _ data)).
      now rewrite substring_list.
    + lia.
    + rewrite length_list_ascii. lia.
    + rewrite length_list_ascii. nia.
Qed.

Lemma join_rows_slices_witness :
  join_rows "abcdefg" 3 = Ok (String.concat newline ["abc"; "def"; "g"])%string
  /\ Z.of_nat (List.length (rows_of 3 "abcdefg")) = row_count 7 3.
Proof.
  destruct (join_rows_slices "abcdefg" 3 ltac:(lia)) as (Hrun & Hcount & _).
  split; [exact Hrun | exact Hcount].
Defined.

(** X6: for a positive width the row split loses nothing: the rows of
    [join_rows] put back together, without the newlines, are the data. *)
Theorem join_rows_lossless (data : string) (width : Z) (Hwidth : 0 < width) :
  join_rows data width = Ok (String.concat newline (rows_of width data))
  /\ String.concat "" (rows_of width data) = data.
Proof.
  split; [now apply join_rows_chunks|].
  rewrite <- (string_of_list_ascii_of_string (String.concat _ _)).
  transitivity (string_of_list_ascii (list_ascii_of_string data));
    [|apply string_of_list_ascii_of_string].
  f_equal.
  rewrite list_ascii_concat_empty. unfold rows_of. rewrite map_map.
  erewrite map_ext; [|intros; apply list_ascii_of_string_of_list_ascii].
  rewrite map_id. apply chunks_concat; [lia|].
  now rewrite length_list_ascii.
Qed.

Lemma join_rows_lossless_witness :
  String.concat "" (rows_of 3 "abcdefg") = "abcdefg"%string.
Proof. exact (proj2 (join_rows_lossless "abcdefg" 3 ltac:(lia))). Defined.

(** ** More on color normalization *)

Section MoreNormalization.

Context {lib : Imaging}.

(** X8: color normalization of a decoded image returns an image whose mode
    is none of P, RGBA and LA, and normalizing that image again returns it
    unchanged. *)
Theorem normalize_color_idempotent (img : Image) :
  exists out,
    normalize_color img = Ok out
    /\ im_mode out <> P /\ im_mode out <> RGBA /\ im_mode out <> LA
    /\ normalize_color out = Ok out.
Proof.
  destruct (normalize_color_cases img) as (out & Hout & HP & HRGBA & HLA & _).
  exists out. repeat split; trivial.
  unfold normalize_color.
  replace (mode_eqb (im_mode out) P) with false
    by (symmetry; apply not_true_is_false; now rewrite mode_eqb_eq).
  replace (mode_eqb (im_mode out) RGBA) with false
    by (symmetry; apply not_true_is_false; now rewrite mode_eqb_eq).
  replace (mode_eqb (im_mode out) LA) with false
    by (symmetry; apply not_true_is_false; now rewrite mode_eqb_eq).
  reflexivity.
Qed.

Lemma flatten_opaque (img : Image) :
  fully_opaque img -> flatten_white img = drop_alpha img.
Proof.
  intros Hop. unfold flatten_white, drop_alpha. f_equal.
  apply map_ext_in. intros px Hin.
  unfold fully_opaque in Hop. rewrite Forall_forall in Hop.
  now rewrite (Hop px Hin).
Qed.

Lemma flatten_transparent (img : Image) :
  well_formed img = true -> fully_transparent img ->
  flatten_white img = Image_new RGB (im_size img) (PTuple [255; 255; 255]).
Proof.
  intros Hwf Htr. apply well_formed_iff in Hwf.
  destruct Hwf as (_ & _ & Hlen & _).
  unfold flatten_white, Image_new. f_equal. simpl fst. simpl snd.
  rewrite <- Hlen, Nat2Z.id.
  unfold fully_transparent in Htr. revert Htr.
  generalize (im_data img) as l.
  induction l as [|px l IH]; intros Hall; [reflexivity|].
  inversion Hall as [|? ? Hpx Hrest]; subst. simpl.
  now rewrite Hpx, IH.
Qed.

Lemma Forall_binary (img : Image) (a : Z) :
  a = 0 \/ a = 255 ->
  Forall (fun px => alpha_of px = a) (im_data img) -> binary_alpha img.
Proof.
  intros Ha Hall. unfold binary_alpha.
  eapply Forall_impl; [|exact Hall]. intros px ->. exact Ha.
Qed.

(** X9: an alpha band that is 255 everywhere is ignored: a fully opaque RGBA
    or LA image renders exactly as the RGB image of its colours. *)
Theorem opaque_alpha_is_ignored (img : Image) (W : Z) (r : float)
        (threshold : option Z)
        (Hmode : im_mode img = RGBA \/ im_mode img = LA)
        (Hwf : well_formed img = true)
        (Hopaque : fully_opaque img) :
  normalize_color img = Ok (drop_alpha img)
  /\ render img W r threshold = render (drop_alpha img) W r threshold.
Proof.
  pose proof (normalize_alpha img Hmode) as Hn.
  pose proof (composite_binary_alpha img Hmode Hwf
                (Forall_binary img 255 (or_intror eq_refl) Hopaque)) as Hc.
  rewrite Hc, (flatten_opaque img Hopaque) in Hn.
  split; [exact Hn|].
  assert (Hflat : normalize_color (drop_alpha img) = Ok (drop_alpha img))
    by reflexivity.
  now rewrite !render_unfold, Hn, Hflat.
Qed.

(** X10: the colours under a fully transparent image never show: it renders
    exactly as a plain white canvas of the same size. *)
Theorem transparent_renders_as_white (img : Image) (W : Z) (r : float)
        (threshold : option Z)
        (Hmode : im_mode img = RGBA \/ im_mode img = LA)
        (Hwf : well_formed img = true)
        (Htransparent : fully_transparent img) :
  normalize_color img
  = Ok (Image_new RGB (im_size img) (PTuple [255; 255; 255]))
  /\ render img W r threshold
     = render (Image_new RGB (im_size img) (PTuple [255; 255; 255])) W r
              threshold.
Proof.
  pose proof (normalize_alpha img Hmode) as Hn.
  pose proof (composite_binary_alpha img Hmode Hwf
                (Forall_binary img 0 (or_introl eq_refl) Htransparent)) as Hc.
  rewrite Hc, (flatten_transparent img Hwf Htransparent) in Hn.
  split; [exact Hn|].
  assert (Hflat : normalize_color
                    (Image_new RGB (im_size img) (PTuple [255; 255; 255]))
                  = Ok (Image_new RGB (im_size img) (PTuple [255; 255; 255])))
    by reflexivity.
  now rewrite !render_unfold, Hn, Hflat.
Qed.

End MoreNormalization.

Lemma opaque_alpha_is_ignored_witness :
  render (lib := ref_imaging)
    (mkImage RGBA (2, 1) [PTuple [10; 20; 30; 255]; PTuple [0; 0; 0; 255]] [])
    2 1%float None
  = render (lib := ref_imaging)
      (mkImage RGB (2, 1) [PTuple [10; 20; 30]; PTuple [0; 0; 0]] [])
      2 1%float None.
Proof.
  refine (proj2 (opaque_alpha_is_ignored (lib := ref_imaging)
                   (mkImage RGBA (2, 1)
                      [PTuple [10; 20; 30; 255]; PTuple [0; 0; 0; 255]] [])
                   2 1%float None (or_introl eq_refl) eq_refl _)).
  unfold fully_opaque. simpl. repeat constructor.
Defined.

Lemma transparent_renders_as_white_witness :
  render (lib := ref_imaging)
    (mkImage LA (2, 1) [PTuple [10; 0]; PTuple [200; 0]] []) 2 1%float None
  = render (lib := ref_imaging)
      (Image_new RGB (2, 1) (PTuple [255; 255; 255])) 2 1%float None.
Proof.
  refine (proj2 (transparent_renders_as_white (lib := ref_imaging)
                   (mkImage LA (2, 1) [PTuple [10; 0]; PTuple [200; 0]] [])
                   2 1%float None (or_intror eq_refl) eq_refl _)).
  unfold fully_transparent. simpl. repeat constructor.
Defined.

(** ** Degenerate ratios *)

Lemma binary_round_aux_signed (s : bool) (mx ex : Z) (lx : location) :
  sf_signed s (binary_round_aux prec emax s mx ex lx).
Proof.
  unfold binary_round_aux.
  destruct (shr_fexp prec emax mx ex lx) as [mrs e'].
  destruct (shr_fexp prec emax _ e' loc_Exact) as [mrs' e''].
  destruct (shr_m mrs'); [exact eq_refl | | exact I].
  destruct (e'' <=? emax - prec); exact eq_refl.
Qed.

Lemma SFmul_signed (a b : bool) (x y : spec_float) :
  sf_signed a x -> sf_signed b y ->
  sf_signed (xorb a b) (SFmul prec emax x y).
Proof.
  destruct x, y; simpl; intros; subst; trivial.
  apply binary_round_aux_signed.
Qed.

Lemma SFdiv_signed (a b : bool) (x y : spec_float) :
  sf_signed a x -> sf_signed b y ->
  sf_signed (xorb a b) (SFdiv prec emax x y).
Proof.
  destruct x, y; simpl; intros; subst; trivial.
  destruct (SFdiv_core_binary _ _ _ _ _ _) as [[mz ez] lz].
  apply binary_round_aux_signed.
Qed.

Lemma negative_float_signed (r : float) :
  PrimFloat.ltb r 0 = true -> sf_signed true (Prim2SF r).
Proof.
  rewrite ltb_spec. change (Prim2SF 0) with (S754_zero false).
  destruct (Prim2SF r) as [s | s | | s m e]; simpl; trivial;
    destruct s; trivial; cbv; congruence.
Qed.

Lemma int_of_float_nonpos (x : float) (t : Z) :
  sf_signed true (Prim2SF x) -> Py.int_of_float x = Ok t -> t <= 0.
Proof.
  unfold Py.int_of_float.
  destruct (Prim2SF x) as [s | s | | s m e]; intros Hs Heq;
    try discriminate Heq.
  - injection Heq as <-. lia.
  - simpl in Hs. subst s.
    assert (Ha : 0 <= if 0 <=? e then Z.pos m * 2 ^ e
                      else Z.pos m / 2 ^ (- e)).
    { destruct (0 <=? e) eqn:E.
      - apply Z.leb_le in E. apply Z.mul_nonneg_nonneg; [lia|].
        apply Z.pow_nonneg. lia.
      - apply Z.leb_gt in E. apply Z.div_pos; [lia|].
        apply Z.pow_pos_nonneg; lia. }
    apply Z.opp_nonpos_nonneg in Ha. injection Heq as <-. exact Ha.
Qed.

Lemma truncated_height_nonpos (w h W : Z) (r : float) (t : Z) :
  0 <= w -> 0 <= h -> 0 <= W -> PrimFloat.ltb r 0 = true ->
  truncated_height (w, h) W r = Ok t -> t <= 0.
Proof.
  intros Hw Hh HW Hr. unfold truncated_height. intros H.
  bind_inv H. bind_inv H. bind_inv H.
  apply (int_of_float_nonpos a1); [|exact H].
  unfold Py.int_truediv in Ha. destruct (w =? 0); [discriminate|].
  bind_inv Ha. bind_inv Ha. injection Ha as <-.
  unfold Py.float_div in Ha0. destruct (PrimFloat.eqb r 0); [discriminate|].
  injection Ha0 as <-.
  unfold Py.int_mul_float in Ha1. bind_inv Ha1. injection Ha1 as <-.
  rewrite mul_spec, div_spec, div_spec.
  apply (SFmul_signed false true); [now apply (float_of_int_pos W)|].
  apply (SFdiv_signed false true); [|now apply negative_float_signed].
  apply (SFdiv_signed false false);
    [now apply (float_of_int_pos h) | now apply (float_of_int_pos w)].
Qed.

Lemma SFdiv_nan (x : spec_float) : SFdiv prec emax x S754_nan = S754_nan.
Proof. now destruct x. Qed.

Lemma SFmul_nan (x : spec_float) : SFmul prec emax x S754_nan = S754_nan.
Proof. now destruct x. Qed.

Section Ratios.

Context {lib : Imaging}.

(** X11: a negative ratio is not rejected: whenever the resize step returns
    an image for it, that image has exactly one row (the truncated height is
    never positive, and only 0 survives, as 1). *)
Theorem negative_ratio_single_row (img : Image) (W : Z) (r : float)
        (out : Image)
        (Hwf : well_formed img = true)
        (Hr : PrimFloat.ltb r 0 = true)
        (Hrun : resize_image img W r = Ok out) :
  im_size out = (W, 1).
Proof.
  destruct (resize_image_inv img W r out Hwf Hrun) as (t & Ht & Ht0 & HW & Hrs).
  assert (Hle : t <= 0).
  { apply well_formed_iff in Hwf. destruct Hwf as (Hw & Hh & _).
    destruct (im_size img) as [w h]. simpl in Hw, Hh.
    apply (truncated_height_nonpos w h W r t); trivial; lia. }
  apply resize_size in Hrs. rewrite Hrs. f_equal. lia.
Qed.

(** X12: a zero ratio (0.0 or -0.0) always makes [resize_image] raise, before
    the imaging library is called: [ZeroDivisionError], or [OverflowError]
    when a dimension does not fit a float. *)
Theorem zero_ratio_raises (img : Image) (W : Z) (r : float)
        (Hr : PrimFloat.eqb r 0 = true) :
  resize_image img W r = Raise ZeroDivisionError
  \/ resize_image img W r = Raise OverflowError.
Proof.
  unfold resize_image, new_height_for. destruct (im_size img) as [w h].
  destruct (Py.int_truediv h w) as [q | e] eqn:E; simpl bind.
  - unfold Py.float_div. rewrite Hr. now left.
  - destruct (int_truediv_raises h w e E) as [-> | ->]; auto.
Qed.

(** X13: a NaN ratio always makes [resize_image] raise, before the imaging
    library is called: [ValueError] from [int(nan)], unless the division of
    the dimensions already failed. *)
Theorem nan_ratio_raises (img : Image) (W : Z) :
  resize_image img W nan = Raise ValueError
  \/ resize_image img W nan = Raise ZeroDivisionError
  \/ resize_image img W nan = Raise OverflowError.
Proof.
  unfold resize_image, new_height_for. destruct (im_size img) as [w h].
  destruct (Py.int_truediv h w) as [q | e] eqn:E; simpl bind.
  - unfold Py.float_div. change (PrimFloat.eqb nan 0) with false.
    simpl bind. unfold Py.int_mul_float, Py.float_of_int.
    destruct (binary_normalize prec emax W 0 false) eqn:EW; simpl bind;
      auto; left;
      unfold Py.int_of_float;
      rewrite mul_spec, div_spec;
      change (Prim2SF nan) with S754_nan;
      now rewrite SFdiv_nan, SFmul_nan.
  - destruct (int_truediv_raises h w e E) as [-> | ->]; auto.
Qed.

End Ratios.

Lemma negative_ratio_single_row_witness :
  exists out, resize_image (lib := ref_imaging) white2x2 2 (-1000)%float = Ok out
              /\ im_size out = (2, 1).
Proof.
  destruct (resize_image (lib := ref_imaging) white2x2 2 (-1000)%float)
    as [out | e] eqn:E; [|vm_compute in E; discriminate E].
  exists out. split; [reflexivity|].
  exact (negative_ratio_single_row (lib := ref_imaging) white2x2 2
           (-1000)%float out eq_refl eq_refl E).
Defined.

Lemma zero_ratio_raises_witness :
  resize_image (lib := ref_imaging) white2x2 2 (-0)%float
  = Raise ZeroDivisionError
  \/ resize_image (lib := ref_imaging) white2x2 2 (-0)%float
     = Raise OverflowError.
Proof.
  exact (zero_ratio_raises (lib := ref_imaging) white2x2 2 (-0)%float eq_refl).
Defined.

(** ** Whole runs *)

Lemma length_append (a b : string) :
  String.length (a ++ b) = (String.length a + String.length b)%nat.
Proof. induction a as [|c a IH]; simpl; [reflexivity | now rewrite IH]. Qed.

Lemma length_concat_newline (rows : list string) (W : Z) :
  rows <> [] ->
  Forall (fun row => Z.of_nat (String.length row) = W) rows ->
  Z.of_nat (String.length (String.concat newline rows))
  = Z.of_nat (List.length rows) * (W + 1) - 1.
Proof.
  induction rows as [|x rows IH]; intros Hne Hall; [congruence|].
  apply Forall_cons_iff in Hall. destruct Hall as [Hx Hrest].
  destruct rows as [|y rows].
  - change (String.concat newline [x]) with x.
    change (List.length [x]) with 1%nat. lia.
  - change (String.concat newline (x :: y :: rows))
      with (x ++ (newline ++ String.concat newline (y :: rows)))%string.
    rewrite !length_append, !Nat2Z.inj_add, IH by (trivial; discriminate).
    change (String.length newline) with 1%nat.
    change (List.length (x :: y :: rows)) with (S (List.length (y :: rows))).
    rewrite Nat2Z.inj_succ. lia.
Qed.

Section Runs2.

Context {lib : Imaging} {net : Fetcher}.

Lemma stages_length (img : Image) (W : Z) (r : float) (threshold : option Z)
      (out : string) :
  stages img W r threshold out ->
  exists resized height,
    im_size resized = (W, height) /\ 1 <= W /\ 1 <= height
    /\ Z.of_nat (String.length out) = height * (W + 1) - 1.
Proof.
  intros [normal resized height Hn Hr HW HH Hsize Hrwf Hg Hgs Hdata Hout].
  exists resized, height. repeat split; trivial.
  pose proof (grayscale_length _ _ _ Hg Hgs) as Hlen.
  set (chars := map (fun px => ramp_char (luminance px))
                    (getdata (mapped_image resized threshold))) in *.
  assert (Hslen : Z.of_nat (String.length (string_of_list_ascii chars))
                  = W * height).
  { rewrite length_string_of_list. unfold chars. now rewrite length_map. }
  destruct (rows_of_exact _ W height HW ltac:(lia) Hslen) as [Hcount Hwidth].
  rewrite Hout, (length_concat_newline _ W).
  - rewrite Hcount, Z2Nat.id by lia. reflexivity.
  - intros Hnil. rewrite Hnil in Hcount. simpl in Hcount. lia.
  - exact Hwidth.
Qed.

(** X14: once the resize step has returned an image, nothing later can
    raise: for every threshold the grayscale, threshold, mapping and row
    steps return a picture with as many rows as the resized image, each of
    exactly [W] characters. *)
Theorem nothing_fails_after_resize (img normal resized : Image) (W : Z)
        (r : float) (threshold : option Z)
        (Hwf : well_formed img = true)
        (Hnormal : normalize_color img = Ok normal)
        (Hresized : resize_image normal W r = Ok resized) :
  exists out data,
    render img W r threshold = Ok out
    /\ out = String.concat (String "010"%char EmptyString) (rows_of W data)
    /\ Z.of_nat (List.length (rows_of W data)) = snd (im_size resized)
    /\ Forall (fun row => Z.of_nat (String.length row) = W) (rows_of W data).
Proof.
  destruct (resized_stages img normal resized W r threshold Hwf Hnormal
              Hresized) as (out & Hout & Hst).
  destruct Hst as [normal' resized' height Hn' Hr' HW HH Hsize Hrwf Hg Hgs
                   Hdata Ho].
  assert (normal' = normal) by congruence. subst normal'.
  assert (resized' = resized) by congruence. subst resized'.
  pose proof (grayscale_length _ _ _ Hg Hgs) as Hlen.
  set (chars := map (fun px => ramp_char (luminance px))
                    (getdata (mapped_image resized threshold))) in *.
  assert (Hslen : Z.of_nat (String.length (string_of_list_ascii chars))
                  = W * height).
  { rewrite length_string_of_list. unfold chars. now rewrite length_map. }
  destruct (rows_of_exact _ W height HW ltac:(lia) Hslen) as [Hcount Hwidth].
  exists out, (string_of_list_ascii chars).
  repeat split; trivial.
  rewrite Hsize, Hcount, Z2Nat.id by lia. reflexivity.
Qed.

(** X15: a picture of [height] rows and [W] columns is a string of exactly
    [height * (W + 1) - 1] characters: the cells and one newline between
    consecutive rows, none at the end; in particular it is never empty. *)
Theorem render_output_length (img : Image) (W : Z) (r : float)
        (threshold : option Z) (out : string)
        (Hwf : well_formed img = true)
        (Hrun : render img W r threshold = Ok out) :
  exists normal resized height,
    normalize_color img = Ok normal
    /\ resize_image normal W r = Ok resized
    /\ im_size resized = (W, height)
    /\ Z.of_nat (String.length out) = height * (W + 1) - 1
    /\ (0 < String.length out)%nat.
Proof.
  destruct (render_stages img W r threshold out Hwf Hrun)
    as [normal resized height Hn Hr HW HH Hsize Hrwf Hg Hgs Hdata Hout].
  assert (Hlen : Z.of_nat (String.length out) = height * (W + 1) - 1).
  { pose proof (grayscale_length _ _ _ Hg Hgs) as Hl.
    set (chars := map (fun px => ramp_char (luminance px))
                      (getdata (mapped_image resized threshold))) in *.
    assert (Hslen : Z.of_nat (String.length (string_of_list_ascii chars))
                    = W * height).
    { rewrite length_string_of_list. unfold chars. now rewrite length_map. }
    destruct (rows_of_exact _ W height HW ltac:(lia) Hslen) as [Hc Hwd].
    rewrite Hout, (length_concat_newline _ W); trivial.
    - rewrite Hc, Z2Nat.id by lia. reflexivity.
    - intros Hnil. rewrite Hnil in Hc. simpl in Hc. lia. }
  exists normal, resized, height. repeat split; trivial. nia.
Qed.

(** X16: when the image loads and the pipeline returns a picture,
    [generate_ascii] prints nothing itself and the script prints the picture
    exactly once. *)
Theorem main_prints_picture (url : string) (W : Z) (r : float)
        (threshold : option Z) (out : stdout) (img : Image) (art : string)
        (Hload : load_image url = inr (Decodable img))
        (Hwf : well_formed img = true)
        (Hrun : render img W r threshold = Ok art) :
  generate_ascii url W r threshold out = (Ok (Some art), out)
  /\ main (mkArgs url W r threshold) out = (Ok tt, out ++ [art]).
Proof.
  assert (Hgen : generate_ascii url W r threshold out = (Ok (Some art), out)).
  { unfold generate_ascii. rewrite Hload. simpl render_opened.
    now rewrite Hrun. }
  split; [exact Hgen|].
  destruct (stages_length img W r threshold art
              (render_stages img W r threshold art Hwf Hrun))
    as (resized & height & _ & HW & HH & Hlen).
  unfold main. simpl. rewrite Hgen.
  replace (0 <? String.length art)%nat with true; [reflexivity|].
  symmetry. apply Nat.ltb_lt. nia.
Qed.

End Runs2.

Lemma nothing_fails_after_resize_witness :
  exists out data,
    render (lib := ref_imaging) gray3x2 6 1%float (Some 100) = Ok out
    /\ out = String.concat (String "010"%char EmptyString) (rows_of 6 data)
    /\ Z.of_nat (List.length (rows_of 6 data)) = 4
    /\ Forall (fun row => Z.of_nat (String.length row) = 6) (rows_of 6 data).
Proof.
  destruct (resize_image (lib := ref_imaging) gray3x2 6 1%float)
    as [resized | e] eqn:E; [|vm_compute in E; discriminate E].
  destruct (nothing_fails_after_resize (lib := ref_imaging) gray3x2 gray3x2
              resized 6 1%float (Some 100) eq_refl eq_refl E)
    as (out & data & Hout & Hrows & Hcount & Hwidth).
  exists out, data. repeat split; trivial.
  rewrite Hcount. vm_compute in E. injection E as <-. reflexivity.
Defined.

Lemma render_output_length_witness :
  exists normal resized height,
    normalize_color (lib := ref_imaging) gray3x2 = Ok normal
    /\ resize_image normal 6 1%float = Ok resized
    /\ im_size resized = (6, height)
    /\ Z.of_nat (String.length
                   (String.concat newline
                      ["@@**  "; "@@**  "; "@@@@.."; "@@@@.."]%string))
       = height * (6 + 1) - 1
    /\ (0 < String.length
              (String.concat newline
                 ["@@**  "; "@@**  "; "@@@@.."; "@@@@.."]%string))%nat.
Proof.
  exact (render_output_length (lib := ref_imaging) gray3x2 6 1%float None
           (String.concat newline
              ["@@**  "; "@@**  "; "@@@@.."; "@@@@.."]%string)
           eq_refl ltac:(vm_compute; reflexivity)).
Defined.

Lemma main_prints_picture_witness :
  main (lib := ref_imaging) (net := serving gray3x2)
       (mkArgs "https://example.org/a.png" 3 1%float (Some 100)) []
  = (Ok tt, [String.concat newline ["@@ "; "@@ "]%string]).
Proof.
  exact (proj2 (main_prints_picture (lib := ref_imaging)
                  (net := serving gray3x2) "https://example.org/a.png"
                  3 1%float (Some 100) [] gray3x2
                  (String.concat newline ["@@ "; "@@ "]%string)
                  eq_refl eq_refl ltac:(vm_compute; reflexivity))).
Defined.

(** ** Raising the threshold *)

Lemma binarize_monotone (t1 t2 v : Z) :
  t1 <= t2 -> binarize t2 v = 255 -> binarize t1 v = 255.
Proof.
  unfold binarize. intros Ht.
  destruct (Z.ltb_spec t2 v); [|discriminate].
  destruct (Z.ltb_spec t1 v); [reflexivity | lia].
Qed.

Section Thresholds.

Context {lib : Imaging}.

(** X18: raising the threshold only darkens: with thresholds [t1 <= t2] on
    the same image and configuration, when the run with [t2] returns so does
    the run with [t1], and every cell drawn as a space under [t2] is a space
    under [t1]. *)
Theorem threshold_only_darkens (img : Image) (W : Z) (r : float)
        (t1 t2 : Z) (out2 : string)
        (Hwf : well_formed img = true)
        (Hle : t1 <= t2)
        (Hrun : render img W r (Some t2) = Ok out2) :
  exists out1 data1 data2,
    render img W r (Some t1) = Ok out1
    /\ out1 = String.concat newline (rows_of W data1)
    /\ out2 = String.concat newline (rows_of W data2)
    /\ lighter_or_equal data1 data2.
Proof.
  destruct (render_stages img W r (Some t2) out2 Hwf Hrun)
    as [normal resized height Hn Hr HW HH Hsize Hrwf Hg Hgs Hdata Hout].
  destruct (resized_stages img normal resized W r (Some t1) Hwf Hn Hr)
    as (out1 & Hrun1 & Hst1).
  destruct Hst1 as [normal' resized' height' Hn' Hr' _ _ _ _ _ _ _ Hout1].
  assert (normal' = normal) by congruence. subst normal'.
  assert (resized' = resized) by congruence. subst resized'.
  eexists out1, _, _. split; [exact Hrun1|].
  split; [exact Hout1|]. split; [exact Hout|].
  unfold lighter_or_equal. rewrite !list_ascii_of_string_of_list_ascii.
  simpl mapped_image. unfold getdata. simpl im_data. rewrite !map_map.
  pose proof (grayscale_pixels _ (grayify_grayscale _ Hrwf)) as Hpx.
  induction Hpx as [|px l (v & -> & Hv) _ IH]; simpl; constructor; trivial.
  assert (Hcases : binarize t2 v = 0 \/ binarize t2 v = 255).
  { unfold binarize. destruct (t2 <? v); auto. }
  destruct Hcases as [H0 | H255].
  - rewrite H0. intros Hs. vm_compute in Hs. discriminate Hs.
  - intros _. now rewrite (binarize_monotone t1 t2 v Hle H255).
Qed.

End Thresholds.

Lemma threshold_only_darkens_witness :
  exists out1 data1 data2,
    render (lib := ref_imaging) gray3x2 3 1%float (Some 27) = Ok out1
    /\ out1 = String.concat newline (rows_of 3 data1)
    /\ String.concat newline ["@@ "; "@@ "]%string
       = String.concat newline (rows_of 3 data2)
    /\ lighter_or_equal data1 data2.
Proof.
  exact (threshold_only_darkens (lib := ref_imaging) gray3x2 3 1%float
           27 100 (String.concat newline ["@@ "; "@@ "]%string)
           eq_refl ltac:(lia) ltac:(vm_compute; reflexivity)).
Defined.
